(** * pr2cursor: the comment normalization pipeline of [src/normalize.ts]

    A shallow embedding of [isLikelyBot], [findAuthorLastActivity],
    [normalizeReviews], [normalizeIssueComments], [normalizeInlineComments]
    and [normalizeAll], followed by the properties the specification
    states about them. The pure parts of [src/gh.ts]
    ([parseGhPaginatedJson], the mapping of [getInlineComments]), of
    [src/render.ts] ([renderPrompt]) and of the command line
    ([parseArgs]) are embedded as well, with properties read off the
    code.

    Conventions of the embedding:
    - a JavaScript string is a [string] holding the text as UTF-8 bytes;
      [null] and [undefined] are [None];
    - a [Date] is its time value, [None] standing for NaN (Invalid Date);
    - the host's [String.prototype.toLowerCase], [String.prototype.trim]
      and [Date] parser are fields of a [Host]; the pipeline and the
      general theorems are parametric in the host, and [asciiHost] is a
      concrete one (ASCII identifiers, GitHub's timestamp format) used to
      run the code on sample inputs;
    - a [for] loop that pushes to [results] is a [flat_map] or a fold;
    - the [Map] [latestByAuthor] is an association list in insertion
      order, as a JavaScript [Map] iterates. *)

From Stdlib Require Import ZArith List String Ascii Bool Lia.
From Stdlib Require Import Sorted Permutation DecimalString.
From Stdlib Require DecimalZ DecimalPos.
Import ListNotations.
Local Open Scope string_scope.
Local Open Scope Z_scope.

(* ------------------------------------------------------------------ *)
(** ** Host built-ins *)

Class Host : Type := {
  toLowerCase : string -> string;
  trim : string -> string;
  (** time value of [new Date(s)], [None] when the date is invalid *)
  Date_parse : string -> option Z
}.

(** A [Date] object, reduced to its time value ([None] is NaN). *)
Definition Date : Type := option Z.

(** [a > b] on dates: false as soon as one side is NaN. *)
Definition Date_gt (a b : Date) : bool :=
  match a, b with
  | Some x, Some y => y <? x
  | _, _ => false
  end.

(** [a <= b] on dates: false as soon as one side is NaN. *)
Definition Date_le (a b : Date) : bool :=
  match a, b with
  | Some x, Some y => x <=? y
  | _, _ => false
  end.

(** Truthiness of a string: every string but the empty one. *)
Definition truthy (s : string) : bool := negb (s =? "")%string.

(** [s.endsWith(suffix)]: some tail of [s] is [suffix]. *)
Fixpoint endsWith (s suffix : string) : bool :=
  (s =? suffix)%string ||
  match s with
  | EmptyString => false
  | String _ s' => endsWith s' suffix
  end.

(** [s.startsWith(p)] *)
Fixpoint startsWith (s p : string) {struct p} : bool :=
  match p with
  | EmptyString => true
  | String a p' =>
      match s with
      | EmptyString => false
      | String b s' => Ascii.eqb a b && startsWith s' p'
      end
  end.

(** [s.includes(p)]: some tail of [s] starts with [p]. *)
Fixpoint includes (s p : string) : bool :=
  startsWith s p ||
  match s with
  | EmptyString => false
  | String _ s' => includes s' p
  end.

(** Decimal rendering of an integer, as a template literal renders it. *)
Definition Number_toString (n : Z) : string :=
  NilZero.string_of_int (Z.to_int n).

(** [xs[xs.length - 1]], [None] when [xs] is empty. *)
Fixpoint lastOf {A : Type} (xs : list A) : option A :=
  match xs with
  | [] => None
  | [x] => Some x
  | _ :: xs' => lastOf xs'
  end.

(* ------------------------------------------------------------------ *)
(** ** A concrete host: ASCII strings, ISO-8601 UTC timestamps *)

Definition lowerAscii (c : ascii) : ascii :=
  let n := nat_of_ascii c in
  if (Nat.leb 65 n && Nat.leb n 90)%bool then ascii_of_nat (n + 32) else c.

Fixpoint ascii_toLowerCase (s : string) : string :=
  match s with
  | EmptyString => EmptyString
  | String c s' => String (lowerAscii c) (ascii_toLowerCase s')
  end.

Definition isWhiteSpace (c : ascii) : bool :=
  let n := nat_of_ascii c in
  (Nat.leb 9 n && Nat.leb n 13)%bool || Nat.eqb n 32.

Fixpoint trimStart (s : string) : string :=
  match s with
  | EmptyString => EmptyString
  | String c s' => if isWhiteSpace c then trimStart s' else s
  end.

Fixpoint revString (s acc : string) : string :=
  match s with
  | EmptyString => acc
  | String c s' => revString s' (String c acc)
  end.

Definition ascii_trim (s : string) : string :=
  revString (trimStart (revString (trimStart s) "")) "".

Definition digit (c : ascii) : option Z :=
  let n := nat_of_ascii c in
  if (Nat.leb 48 n && Nat.leb n 57)%bool then Some (Z.of_nat (n - 48)) else None.

Fixpoint digits (cs : list ascii) (acc : Z) : option Z :=
  match cs with
  | [] => Some acc
  | c :: cs' =>
      match digit c with
      | Some d => digits cs' (10 * acc + d)
      | None => None
      end
  end.

(** Days from 1970-01-01 to the civil date [y]-[m]-[d]. *)
Definition daysFromCivil (y m d : Z) : Z :=
  let y' := if m <=? 2 then y - 1 else y in
  let era := y' / 400 in
  let yoe := y' - era * 400 in
  let mp := (m + 9) mod 12 in
  let doy := (153 * mp + 2) / 5 + d - 1 in
  let doe := yoe * 365 + yoe / 4 - yoe / 100 + doy in
  era * 146097 + doe - 719468.

Definition daysInMonth (y m : Z) : Z :=
  if m =? 2 then
    if ((y mod 4 =? 0) && negb (y mod 100 =? 0) || (y mod 400 =? 0))%bool
    then 29 else 28
  else if ((m =? 4) || (m =? 6) || (m =? 9) || (m =? 11))%bool then 30
  else 31.

(** The timestamps GitHub sends: [YYYY-MM-DDTHH:MM:SSZ]; anything else is
    an invalid date for this host. The result is in milliseconds. *)
Definition iso_parse (s : string) : option Z :=
  match list_ascii_of_string s with
  | [y1; y2; y3; y4; "-"%char; m1; m2; "-"%char; d1; d2; "T"%char;
     h1; h2; ":"%char; i1; i2; ":"%char; s1; s2; "Z"%char] =>
      match digits [y1; y2; y3; y4] 0, digits [m1; m2] 0, digits [d1; d2] 0,
            digits [h1; h2] 0, digits [i1; i2] 0, digits [s1; s2] 0 with
      | Some y, Some m, Some d, Some h, Some i, Some sec =>
          if ((1 <=? m) && (m <=? 12) && (1 <=? d) && (d <=? daysInMonth y m)
              && (h <=? 23) && (i <=? 59) && (sec <=? 59))%bool
          then Some ((((daysFromCivil y m d * 24 + h) * 60 + i) * 60 + sec) * 1000)
          else None
      | _, _, _, _, _, _ => None
      end
  | _ => None
  end.

Definition asciiHost : Host := {|
  toLowerCase := ascii_toLowerCase;
  trim := ascii_trim;
  Date_parse := iso_parse
|}.

(* ------------------------------------------------------------------ *)
(** ** Data model ([types.ts]) *)

Module Review.
Record t : Type := mk {
  author : option string;      (** [author.login], [None] for [null] *)
  state : string;
  submittedAt : option string;
  body : option string
}.
End Review.

Module PRView.
Record t : Type := mk {
  title : string;
  url : string;
  author : string;             (** [author.login] *)
  state : string;
  createdAt : string;
  updatedAt : string;
  baseRefName : string;
  headRefName : string;
  reviews : list Review.t
}.
End PRView.

Module IssueComment.
Record t : Type := mk {
  user : option string;        (** [user.login], [None] for [null] *)
  created_at : string;
  body : option string;
  html_url : string;
  id : Z
}.
End IssueComment.

Module InlineMessage.
Record t : Type := mk {
  id : string;
  author : string;
  createdAt : string;
  body : string;
  url : string
}.
End InlineMessage.

Module InlineComment.
Record t : Type := mk {
  path : string;
  line : option Z;
  originalLine : option Z;
  isResolved : bool;
  isOutdated : bool;
  comments : list InlineMessage.t
}.
End InlineComment.

Inductive CommentKind : Type :=
| inline_comment
| review_body
| pr_comment.

Inductive LineRef : Type :=
| LineNumber (n : Z)
| LineLabel (s : string).

Module NormalizedComment.
Record t : Type := mk {
  id : string;
  kind : CommentKind;
  author : string;
  createdAt : option string;
  state : option string;
  filePath : option string;
  line : option LineRef;
  isResolved : option bool;
  body : string;
  url : option string;
  isBot : bool
}.
End NormalizedComment.

Module NormalizeResult.
Record t : Type := mk {
  comments : list NormalizedComment.t;
  authorLastActivity : option Date
}.
End NormalizeResult.

(* ------------------------------------------------------------------ *)
(** ** An insertion-ordered [Map<string, V>] *)

Section JsMap.
Context {V : Type}.

Definition JsMap : Type := list (string * V).

Fixpoint Map_get (k : string) (m : JsMap) : option V :=
  match m with
  | [] => None
  | (k', v) :: m' => if (k' =? k)%string then Some v else Map_get k m'
  end.

(** [set] overwrites in place when the key is present, appends otherwise. *)
Fixpoint Map_set (k : string) (v : V) (m : JsMap) : JsMap :=
  match m with
  | [] => [(k, v)]
  | (k', v') :: m' =>
      if (k' =? k)%string then (k', v) :: m' else (k', v') :: Map_set k v m'
  end.
End JsMap.
Arguments JsMap : clear implicits.

(* ------------------------------------------------------------------ *)
(** ** [Array.prototype.sort] with a comparator

    The comparator returns a number, [None] for NaN, which the sort reads
    as [+0]. The sort is stable; it is modelled as a stable insertion
    sort, which is the result of every conforming sort when the
    comparator is consistent. With an inconsistent comparator (one that
    returns NaN) the order is left to the implementation; the result is
    a permutation of the array in every case. *)

Section ArraySort.
Context {A : Type} (comparefn : A -> A -> option Z).

(** [SortCompare(x, y) <= 0] *)
Definition sortLe (x y : A) : bool :=
  match comparefn x y with
  | Some v => v <=? 0
  | None => true
  end.

Fixpoint sortInsert (x : A) (l : list A) : list A :=
  match l with
  | [] => [x]
  | y :: l' => if sortLe x y then x :: y :: l' else y :: sortInsert x l'
  end.

Definition Array_sort (l : list A) : list A :=
  fold_right sortInsert [] l.
End ArraySort.

(* ------------------------------------------------------------------ *)
(** ** The pipeline ([normalize.ts]) *)

Section Pipeline.
Context {host : Host}.

(** *** Bot detection *)

Definition BOT_AUTHOR_PATTERNS : list string :=
  [ "github-actions"; "sonar"; "sonarcloud"; "sonarqube"; "dependabot";
    "renovate"; "codecov"; "vercel"; "netlify"; "circleci"; "travisci";
    "sizebot"; "[bot]"; "-bot"; "bot-" ].

Definition endsWithBot (author : string) : bool :=
  endsWith (toLowerCase author) "bot".

Definition isLikelyBot (author : string) : bool :=
  let authorLower := toLowerCase author in
  if endsWithBot author then true
  else existsb (fun pattern => includes authorLower pattern) BOT_AUTHOR_PATTERNS.

(** *** The PR author's last activity *)

(** One step of either loop of [findAuthorLastActivity]: [isAuthor] is
    the test [login === prAuthor], [stamp] the record's timestamp. *)
Definition trackActivity (isAuthor : bool) (stamp : string)
    (lastActivity : option Date) : option Date :=
  if (isAuthor && truthy stamp)%bool then
    let date := Date_parse stamp in
    match lastActivity with
    | None => Some date
    | Some last => if Date_gt date last then Some date else lastActivity
    end
  else lastActivity.

Definition issueStep (prAuthor : string) (lastActivity : option Date)
    (comment : IssueComment.t) : option Date :=
  trackActivity
    (match IssueComment.user comment with
     | Some login => (login =? prAuthor)%string
     | None => false
     end)
    (IssueComment.created_at comment) lastActivity.

Definition messageStep (prAuthor : string) (lastActivity : option Date)
    (comment : InlineMessage.t) : option Date :=
  trackActivity (InlineMessage.author comment =? prAuthor)%string
    (InlineMessage.createdAt comment) lastActivity.

Definition threadStep (prAuthor : string) (lastActivity : option Date)
    (thread : InlineComment.t) : option Date :=
  fold_left (messageStep prAuthor) (InlineComment.comments thread) lastActivity.

Definition findAuthorLastActivity (prAuthor : string)
    (issueComments : list IssueComment.t)
    (inlineComments : list InlineComment.t) : option Date :=
  let lastActivity := fold_left (issueStep prAuthor) issueComments None in
  fold_left (threadStep prAuthor) inlineComments lastActivity.

(** *** Reviews *)

(** [authorLastActivity && stamp && new Date(stamp) <= authorLastActivity] *)
Definition clearedByActivity (authorLastActivity : option Date)
    (stamp : option string) : bool :=
  match authorLastActivity, stamp with
  | Some last, Some s => truthy s && Date_le (Date_parse s) last
  | _, _ => false
  end.

(** [review.submittedAt && existing.submittedAt &&
     new Date(review.submittedAt) > new Date(existing.submittedAt)] *)
Definition submittedLater (review existing : Review.t) : bool :=
  match Review.submittedAt review, Review.submittedAt existing with
  | Some s, Some e =>
      truthy s && truthy e && Date_gt (Date_parse s) (Date_parse e)
  | _, _ => false
  end.

(** Body of the first loop of [normalizeReviews]. *)
Definition reviewStep (prView : PRView.t) (authorLastActivity : option Date)
    (latestByAuthor : JsMap Review.t) (review : Review.t) : JsMap Review.t :=
  match Review.author review with
  | None => latestByAuthor
  | Some author =>
      if isLikelyBot author then latestByAuthor
      else if (author =? PRView.author prView)%string then latestByAuthor
      else if clearedByActivity authorLastActivity (Review.submittedAt review)
      then latestByAuthor
      else
        match Map_get author latestByAuthor with
        | None => Map_set author review latestByAuthor
        | Some existing =>
            if submittedLater review existing
            then Map_set author review latestByAuthor
            else latestByAuthor
        end
  end.

Definition latestByAuthor (prView : PRView.t)
    (authorLastActivity : option Date) : JsMap Review.t :=
  fold_left (reviewStep prView authorLastActivity) (PRView.reviews prView) [].

(** [review.body && review.body.trim().length > 0] *)
Definition hasBody (review : Review.t) : bool :=
  match Review.body review with
  | Some b => truthy b && negb (trim b =? "")%string
  | None => false
  end.

(** [x || undefined] on [string | null | undefined] *)
Definition orUndefined (o : option string) : option string :=
  match o with
  | Some s => if truthy s then Some s else None
  | None => None
  end.

(** [review.body || `[${review.state}]`] *)
Definition reviewBodyText (review : Review.t) : string :=
  match Review.body review with
  | Some b => if truthy b then b else "[" ++ Review.state review ++ "]"
  | None => "[" ++ Review.state review ++ "]"
  end.

(** Body of the second loop of [normalizeReviews]. *)
Definition emitReview (prView : PRView.t) (entry : string * Review.t)
    : list NormalizedComment.t :=
  let (author, review) := entry in
  let isChangesRequested := (Review.state review =? "CHANGES_REQUESTED")%string in
  let isApproved := (Review.state review =? "APPROVED")%string in
  if (isApproved && negb (hasBody review))%bool then []
  else if (negb (hasBody review) && negb isChangesRequested)%bool then []
  else
    [ {| NormalizedComment.id := "review-" ++ author;
         NormalizedComment.kind := review_body;
         NormalizedComment.author := author;
         NormalizedComment.createdAt := orUndefined (Review.submittedAt review);
         NormalizedComment.state := Some (Review.state review);
         NormalizedComment.filePath := None;
         NormalizedComment.line := None;
         NormalizedComment.isResolved := None;
         NormalizedComment.body := reviewBodyText review;
         NormalizedComment.url := Some (PRView.url prView);
         NormalizedComment.isBot := false |} ].

Definition normalizeReviews (prView : PRView.t)
    (authorLastActivity : option Date) : list NormalizedComment.t :=
  flat_map (emitReview prView) (latestByAuthor prView authorLastActivity).

(** *** Issue comments *)

(** [comment.body || ""] *)
Definition issueBody (comment : IssueComment.t) : string :=
  match IssueComment.body comment with
  | Some b => b
  | None => ""
  end.

Definition issueToNormalized (author : string) (comment : IssueComment.t)
    : NormalizedComment.t :=
  {| NormalizedComment.id := "comment-" ++ Number_toString (IssueComment.id comment);
     NormalizedComment.kind := pr_comment;
     NormalizedComment.author := author;
     NormalizedComment.createdAt := Some (IssueComment.created_at comment);
     NormalizedComment.state := None;
     NormalizedComment.filePath := None;
     NormalizedComment.line := None;
     NormalizedComment.isResolved := None;
     NormalizedComment.body := issueBody comment;
     NormalizedComment.url := Some (IssueComment.html_url comment);
     NormalizedComment.isBot := false |}.

(** Body of the loop of [normalizeIssueComments]. *)
Definition emitIssueComment (prAuthor : string)
    (authorLastActivity : option Date) (comment : IssueComment.t)
    : list NormalizedComment.t :=
  match IssueComment.user comment with
  | None => []
  | Some author =>
      if (trim (issueBody comment) =? "")%string then []
      else if isLikelyBot author then []
      else if (author =? prAuthor)%string then []
      else if clearedByActivity authorLastActivity
                (Some (IssueComment.created_at comment)) then []
      else [ issueToNormalized author comment ]
  end.

Definition normalizeIssueComments (comments : list IssueComment.t)
    (prAuthor : string) (authorLastActivity : option Date)
    : list NormalizedComment.t :=
  flat_map (emitIssueComment prAuthor authorLastActivity) comments.

(** *** Inline comments *)

(** [thread.line ?? thread.originalLine ?? undefined] *)
Definition threadLine (thread : InlineComment.t) : option LineRef :=
  match InlineComment.line thread with
  | Some n => Some (LineNumber n)
  | None =>
      match InlineComment.originalLine thread with
      | Some n => Some (LineNumber n)
      | None => None
      end
  end.

Definition inlineToNormalized (thread : InlineComment.t)
    (latestComment : InlineMessage.t) : NormalizedComment.t :=
  {| NormalizedComment.id := "inline-" ++ InlineMessage.id latestComment;
     NormalizedComment.kind := inline_comment;
     NormalizedComment.author := InlineMessage.author latestComment;
     NormalizedComment.createdAt := Some (InlineMessage.createdAt latestComment);
     NormalizedComment.state := None;
     NormalizedComment.filePath := Some (InlineComment.path thread);
     NormalizedComment.line := threadLine thread;
     NormalizedComment.isResolved := Some false;
     NormalizedComment.body := InlineMessage.body latestComment;
     NormalizedComment.url := Some (InlineMessage.url latestComment);
     NormalizedComment.isBot := false |}.

Definition byAuthor (prAuthor : string) (c : InlineMessage.t) : bool :=
  (InlineMessage.author c =? prAuthor)%string.

(** The filter that builds [reviewerComments]. *)
Definition isReviewerComment (prAuthor : string) (c : InlineMessage.t) : bool :=
  if isLikelyBot (InlineMessage.author c) then false
  else if (InlineMessage.author c =? prAuthor)%string then false
  else true.

(** Body of the loop of [normalizeInlineComments]. Where the source
    indexes the last element of an array it has just shown non-empty,
    the [None] branch of [lastOf] is not reachable
    (see [authorReplied_lastOf]). *)
Definition emitThread (prAuthor : string) (thread : InlineComment.t)
    : list NormalizedComment.t :=
  if InlineComment.isResolved thread then []
  else if InlineComment.isOutdated thread then []
  else
    let authorReplied := existsb (byAuthor prAuthor) (InlineComment.comments thread) in
    let reviewerComments :=
      filter (isReviewerComment prAuthor) (InlineComment.comments thread) in
    if (List.length reviewerComments =? 0)%nat then []
    else if authorReplied then
      let authorComments := filter (byAuthor prAuthor) (InlineComment.comments thread) in
      match lastOf authorComments with
      | None => []
      | Some lastAuthorReply =>
          let lastAuthorDate := Date_parse (InlineMessage.createdAt lastAuthorReply) in
          let newComments :=
            filter (fun c => Date_gt (Date_parse (InlineMessage.createdAt c)) lastAuthorDate)
                   reviewerComments in
          match lastOf newComments with
          | None => []
          | Some latestComment => [ inlineToNormalized thread latestComment ]
          end
      end
    else
      match lastOf reviewerComments with
      | None => []
      | Some latestComment => [ inlineToNormalized thread latestComment ]
      end.

Definition normalizeInlineComments (threads : list InlineComment.t)
    (prAuthor : string) : list NormalizedComment.t :=
  flat_map (emitThread prAuthor) threads.

(** *** Merge and order *)

(** [a.createdAt ? new Date(a.createdAt).getTime() : 0] *)
Definition sortDate (a : NormalizedComment.t) : option Z :=
  match NormalizedComment.createdAt a with
  | Some s => if truthy s then Date_parse s else Some 0
  | None => Some 0
  end.

(** The comparator [aDate - bDate]; [None] is NaN. *)
Definition byCreatedAt (a b : NormalizedComment.t) : option Z :=
  match sortDate a, sortDate b with
  | Some x, Some y => Some (x - y)
  | _, _ => None
  end.

(** The array [allComments] before it is sorted. *)
Definition allComments (prView : PRView.t)
    (issueComments : list IssueComment.t)
    (inlineComments : list InlineComment.t) : list NormalizedComment.t :=
  let prAuthor := PRView.author prView in
  let authorLastActivity :=
    findAuthorLastActivity prAuthor issueComments inlineComments in
  normalizeReviews prView authorLastActivity
  ++ normalizeIssueComments issueComments prAuthor authorLastActivity
  ++ normalizeInlineComments inlineComments prAuthor.

Definition normalizeAll (prView : PRView.t)
    (issueComments : list IssueComment.t)
    (inlineComments : list InlineComment.t) : NormalizeResult.t :=
  let prAuthor := PRView.author prView in
  let authorLastActivity :=
    findAuthorLastActivity prAuthor issueComments inlineComments in
  let sorted :=
    Array_sort byCreatedAt (allComments prView issueComments inlineComments) in
  {| NormalizeResult.comments := sorted;
     NormalizeResult.authorLastActivity := authorLastActivity |}.
End Pipeline.

(* ------------------------------------------------------------------ *)
(** ** Vocabulary of the specification *)

Section SpecVocabulary.
Context {host : Host}.

(** What [reviewStep] requires of a verdict before it can enter the map. *)
Definition reviewSurvives (prView : PRView.t) (authorLastActivity : option Date)
    (author : string) (review : Review.t) : Prop :=
  Review.author review = Some author /\
  isLikelyBot author = false /\
  author <> PRView.author prView /\
  clearedByActivity authorLastActivity (Review.submittedAt review) = false.

(** The timestamp a comment carries, if any: the empty string counts
    as no timestamp, as it does for the sort of [normalizeAll]. *)
Definition timestampOf (n : NormalizedComment.t) : option string :=
  orUndefined (NormalizedComment.createdAt n).

(** The timestamp, when present, is one the host's [Date] can read. *)
Definition validTimestamp (n : NormalizedComment.t) : Prop :=
  forall s, timestampOf n = Some s -> Date_parse s <> None.

(** The time a comment sorts at: its timestamp's, and the epoch origin
    when it has none. *)
Definition timeOrEpoch (n : NormalizedComment.t) : Z :=
  match timestampOf n with
  | Some s => match Date_parse s with Some t => t | None => 0 end
  | None => 0
  end.

(** The verdicts of [author] that pass the filters of the first loop
    of [normalizeReviews], in the order the PR lists them. *)
Definition survivingVerdicts (prView : PRView.t)
    (authorLastActivity : option Date) (author : string) : list Review.t :=
  filter (fun review =>
            match Review.author review with
            | Some login =>
                (login =? author)%string
                && negb (isLikelyBot login)
                && negb (login =? PRView.author prView)%string
                && negb (clearedByActivity authorLastActivity
                           (Review.submittedAt review))
            | None => false
            end)
         (PRView.reviews prView).

(** The time of a verdict's submission timestamp; [None] when the
    verdict has no timestamp or one that is not a date. *)
Definition verdictTime (review : Review.t) : option Z :=
  match Review.submittedAt review with
  | Some s => if truthy s then Date_parse s else None
  | None => None
  end.

(** The comparison of the first loop, on the verdict kept so far. *)
Definition pickLatest (kept : option Review.t) (review : Review.t)
    : option Review.t :=
  match kept with
  | None => Some review
  | Some existing =>
      if submittedLater review existing then Some review else Some existing
  end.

(** The candidate set of a thread: the messages whose author is
    neither a bot nor the PR author. *)
Definition candidateSet (prAuthor : string) (thread : InlineComment.t)
    : list InlineMessage.t :=
  filter (fun m => negb (isLikelyBot (InlineMessage.author m))
                   && negb (InlineMessage.author m =? prAuthor)%string)
         (InlineComment.comments thread).

Definition messageTime (m : InlineMessage.t) : Date :=
  Date_parse (InlineMessage.createdAt m).

(** The messages are listed in chronological order. *)
Definition chronological (messages : list InlineMessage.t) : Prop :=
  StronglySorted (fun a b => Date_le (messageTime a) (messageTime b) = true)
                 messages.

(** [t] is the time of the PR author's latest message in the thread. *)
Definition authorLatestTime (prAuthor : string) (thread : InlineComment.t)
    (t : Z) : Prop :=
  (exists m, In m (InlineComment.comments thread) /\
             InlineMessage.author m = prAuthor /\ messageTime m = Some t) /\
  (forall m t', In m (InlineComment.comments thread) ->
                InlineMessage.author m = prAuthor ->
                messageTime m = Some t' -> t' <= t).

(** The message is timestamped strictly after [t]. *)
Definition postedAfter (t : Z) (m : InlineMessage.t) : bool :=
  match messageTime m with
  | Some t' => t <? t'
  | None => false
  end.
End SpecVocabulary.

(* ------------------------------------------------------------------ *)
(** ** Sample inputs

    The PR author is "alice"; the timestamps are seconds of one minute,
    in the format GitHub sends. *)

Module Sample.
Definition T1 : string := "2024-01-01T00:00:01Z".
Definition T2 : string := "2024-01-01T00:00:02Z".
Definition T3 : string := "2024-01-01T00:00:03Z".
Definition T5 : string := "2024-01-01T00:00:05Z".

Definition pr (reviews : list Review.t) : PRView.t :=
  {| PRView.title := "Add feature";
     PRView.url := "https://github.com/o/r/pull/7";
     PRView.author := "alice";
     PRView.state := "OPEN";
     PRView.createdAt := "2024-01-01T00:00:00Z";
     PRView.updatedAt := "2024-01-01T00:00:00Z";
     PRView.baseRefName := "main";
     PRView.headRefName := "feature";
     PRView.reviews := reviews |}.

Definition verdict (author state : string) (submittedAt : option string)
    (body : option string) : Review.t :=
  {| Review.author := Some author; Review.state := state;
     Review.submittedAt := submittedAt; Review.body := body |}.

Definition conversation (id : Z) (user created_at body : string)
    : IssueComment.t :=
  {| IssueComment.user := Some user;
     IssueComment.created_at := created_at;
     IssueComment.body := Some body;
     IssueComment.html_url := "https://github.com/o/r/pull/7#issuecomment";
     IssueComment.id := id |}.

Definition message (id author createdAt body : string) : InlineMessage.t :=
  {| InlineMessage.id := id; InlineMessage.author := author;
     InlineMessage.createdAt := createdAt; InlineMessage.body := body;
     InlineMessage.url := "https://github.com/o/r/pull/7#discussion" |}.

Definition thread (isResolved isOutdated : bool)
    (comments : list InlineMessage.t) : InlineComment.t :=
  {| InlineComment.path := "src/app.ts";
     InlineComment.line := Some 3;
     InlineComment.originalLine := None;
     InlineComment.isResolved := isResolved;
     InlineComment.isOutdated := isOutdated;
     InlineComment.comments := comments |}.

(** An open thread whose only message has an empty body, as [gh.ts]
    produces for a message without body ([c.body || ""]). *)
Definition emptyBodyThread : InlineComment.t :=
  thread false false [ message "1" "dave" T1 "" ].

(** Two verdicts of "bob": the first without a timestamp, the second
    with one. *)
Definition undated : Review.t :=
  verdict "bob" "CHANGES_REQUESTED" None (Some "first").
Definition dated : Review.t :=
  verdict "bob" "CHANGES_REQUESTED" (Some T3) (Some "second").

(** Two verdicts of "bob" with different timestamps, the later first. *)
Definition early : Review.t :=
  verdict "bob" "COMMENTED" (Some T1) (Some "please rename").
Definition late : Review.t :=
  verdict "bob" "CHANGES_REQUESTED" (Some T3) (Some "fix the null check").

(** The thread of the specification's scenario. *)
Definition why : InlineMessage.t := message "10" "dave" T1 "why this pattern?".
Definition because : InlineMessage.t := message "11" "alice" T2 "because X".
Definition butY : InlineMessage.t := message "12" "dave" T3 "but what about Y?".
Definition discussion : InlineComment.t := thread false false [ why; because; butY ].

(** A thread listed out of chronological order: the PR author's
    message listed last is the earlier of the two. *)
Definition shuffled : InlineComment.t :=
  thread false false
    [ message "20" "alice" T5 "see the doc"; message "21" "alice" T1 "ack";
      message "22" "dave" T3 "still unclear" ].

(** A resolved thread with a reviewer's message. *)
Definition settled : InlineComment.t :=
  thread true false [ message "30" "dave" T1 "typo" ].

(** The conversation of the boundary scenario. *)
Definition ask : IssueComment.t := conversation 101 "bob" T1 "please add a test".
Definition reply : IssueComment.t := conversation 102 "alice" T2 "done".
Definition praise : IssueComment.t := conversation 103 "carol" T3 "looks good now".
End Sample.

(* ------------------------------------------------------------------ *)
(** ** Vocabulary for the activity boundary *)

(** The timestamps [findAuthorLastActivity] reads, in the order it reads
    them: the non-empty timestamps of the PR author's conversation
    comments, then those of the PR author's inline messages. *)
Definition issueStamps (prAuthor : string) (issueComments : list IssueComment.t)
    : list string :=
  flat_map (fun c =>
              match IssueComment.user c with
              | Some login =>
                  if ((login =? prAuthor)%string
                      && truthy (IssueComment.created_at c))%bool
                  then [ IssueComment.created_at c ] else []
              | None => []
              end) issueComments.

Definition messageStamps (prAuthor : string) (messages : list InlineMessage.t)
    : list string :=
  flat_map (fun m =>
              if ((InlineMessage.author m =? prAuthor)%string
                  && truthy (InlineMessage.createdAt m))%bool
              then [ InlineMessage.createdAt m ] else []) messages.

Definition authorStamps (prAuthor : string)
    (issueComments : list IssueComment.t)
    (inlineComments : list InlineComment.t) : list string :=
  (issueStamps prAuthor issueComments
   ++ flat_map (fun thread => messageStamps prAuthor (InlineComment.comments thread))
               inlineComments)%list.

(** The comment is an inline comment. *)
Definition isInline (n : NormalizedComment.t) : bool :=
  match NormalizedComment.kind n with
  | inline_comment => true
  | _ => false
  end.

Section ActivityVocabulary.
Context {host : Host}.

(** [trackActivity] on a timestamp that the PR author wrote. *)
Definition trackStamp (lastActivity : option Date) (stamp : string) : option Date :=
  trackActivity true stamp lastActivity.
End ActivityVocabulary.

(* ------------------------------------------------------------------ *)
(** ** [gh.ts]: paginated output and inline threads

    [JSON.parse] is a parameter: [JSON_parse] is [None] where it throws,
    and [asArray] gives the elements of a value that [Array.isArray]
    accepts. *)

Section PaginatedJson.
Context {host : Host}.
Variable Json : Type.
Variable JSON_parse : string -> option Json.
Variable asArray : Json -> option (list Json).

(** [JSON.parse(text)], then the array itself or the value alone;
    [None] when [JSON.parse] throws. *)
Definition parsedItems (text : string) : option (list Json) :=
  match JSON_parse text with
  | None => None
  | Some parsed =>
      match asArray parsed with
      | Some items => Some items
      | None => Some [ parsed ]
      end
  end.

Record ScanState : Type := {
  depth : Z;
  start : nat;
  results : list Json
}.

(** [trimmed[i] === c] *)
Definition charAt_is (trimmed : string) (i : nat) (c : ascii) : bool :=
  match get i trimmed with
  | Some c' => Ascii.eqb c' c
  | None => false
  end.

(** Body of the [for] loop of [parseGhPaginatedJson]. *)
Definition scanStep (trimmed : string) (st : ScanState) (i : nat) : ScanState :=
  let depth1 := if charAt_is trimmed i "[" then depth st + 1 else depth st in
  if charAt_is trimmed i "]" then
    let depth2 := depth1 - 1 in
    if depth2 =? 0 then
      let chunk := substring (start st) (i + 1 - start st) trimmed in
      {| depth := depth2;
         start := i + 1;
         results := match parsedItems chunk with
                    | Some items => (results st ++ items)%list
                    | None => results st
                    end |}
    else {| depth := depth2; start := start st; results := results st |}
  else {| depth := depth1; start := start st; results := results st |}.

Definition parseGhPaginatedJson (stdout : string) : list Json :=
  let trimmed := trim stdout in
  match parsedItems trimmed with
  | Some items => items
  | None =>
      results (fold_left (scanStep trimmed) (seq 0 (String.length trimmed))
                         {| depth := 0; start := 0; results := [] |})
  end.

(** What the loop pushes for one chunk: its items, nothing when the
    chunk does not parse. *)
Definition chunkItems (chunk : string) : list Json :=
  match parsedItems chunk with
  | Some items => items
  | None => []
  end.
End PaginatedJson.
Arguments depth {Json} _.
Arguments start {Json} _.
Arguments results {Json} _.

(** A text in which, read from bracket depth [depth], the depth comes
    back to zero on a closing bracket at the last character and not
    before: one page of paginated output, with whatever precedes its
    opening bracket. *)
Fixpoint closesAtEnd (depth : Z) (text : string) : bool :=
  match text with
  | EmptyString => false
  | String c rest =>
      let depth1 := if Ascii.eqb c "[" then depth + 1 else depth in
      if Ascii.eqb c "]" then
        if depth1 - 1 =? 0 then (rest =? "")%string
        else closesAtEnd (depth1 - 1) rest
      else closesAtEnd depth1 rest
  end.

(** The GraphQL nodes [getInlineComments] receives. *)
Module RawMessage.
Record t : Type := mk {
  id : string;
  author : option string;        (** [author.login], [None] for [null] *)
  createdAt : string;
  body : string;
  url : string
}.
End RawMessage.

Module RawThread.
Record t : Type := mk {
  path : string;
  line : option Z;
  originalLine : option Z;
  isResolved : bool;
  isOutdated : bool;
  comments : option (list RawMessage.t)   (** [comments?.nodes] *)
}.
End RawThread.

(** [x || fallback] on a string. *)
Definition orString (x fallback : string) : string :=
  if truthy x then x else fallback.

(** The inner [map] of [getInlineComments]. *)
Definition toInlineMessage (c : RawMessage.t) : InlineMessage.t :=
  {| InlineMessage.id := RawMessage.id c;
     InlineMessage.author :=
       match RawMessage.author c with
       | Some login => orString login "unknown"
       | None => "unknown"
       end;
     InlineMessage.createdAt := RawMessage.createdAt c;
     InlineMessage.body := orString (RawMessage.body c) "";
     InlineMessage.url := RawMessage.url c |}.

(** The outer [map] of [getInlineComments]. *)
Definition toInlineComment (thread : RawThread.t) : InlineComment.t :=
  {| InlineComment.path := RawThread.path thread;
     InlineComment.line := RawThread.line thread;
     InlineComment.originalLine := RawThread.originalLine thread;
     InlineComment.isResolved := RawThread.isResolved thread;
     InlineComment.isOutdated := RawThread.isOutdated thread;
     InlineComment.comments :=
       map toInlineMessage
           (match RawThread.comments thread with
            | Some nodes => nodes
            | None => []
            end) |}.

(** [threads.map(...)] on [reviewThreads?.nodes || []]. *)
Definition toInlineComments (threads : option (list RawThread.t))
    : list InlineComment.t :=
  map toInlineComment (match threads with Some nodes => nodes | None => [] end).

(* ------------------------------------------------------------------ *)
(** ** [render.ts]: the prompt, concise format *)

(** [s.split(sep)] for a one-character separator: never empty. *)
Fixpoint splitOn (sep : ascii) (s : string) : list string :=
  match s with
  | EmptyString => [ "" ]
  | String c rest =>
      if Ascii.eqb c sep then "" :: splitOn sep rest
      else
        match splitOn sep rest with
        | segment :: segments => String c segment :: segments
        | [] => [ String c "" ]
        end
  end.

(** [xs.pop()] inside a template literal. *)
Definition popText (xs : list string) : string :=
  match lastOf xs with
  | Some x => x
  | None => "undefined"
  end.

Definition newline : string := String (ascii_of_nat 10) "".

(** [s.length]: the number of UTF-16 code units of a text held as its
    UTF-8 bytes. A byte that starts a character of one, two or three
    bytes counts for one unit, a byte that starts a character of four
    bytes for two (a surrogate pair), a continuation byte for none. *)
Definition utf16Units (c : ascii) : nat :=
  let n := nat_of_ascii c in
  if Nat.ltb n 128 then 1%nat
  else if Nat.ltb n 192 then 0%nat
  else if Nat.ltb n 240 then 1%nat
  else 2%nat.

Fixpoint utf16Length (s : string) : nat :=
  match s with
  | EmptyString => 0%nat
  | String c rest => (utf16Units c + utf16Length rest)%nat
  end.

Section Render.
Context {host : Host}.

(** Truthiness of [c.line]: a number other than 0, a non-empty string. *)
Definition lineTruthy (line : option LineRef) : bool :=
  match line with
  | Some (LineNumber n) => negb (n =? 0)
  | Some (LineLabel s) => truthy s
  | None => false
  end.

(** [c.line] inside a template literal. *)
Definition lineText (line : option LineRef) : string :=
  match line with
  | Some (LineNumber n) => Number_toString n
  | Some (LineLabel s) => s
  | None => "undefined"
  end.

Definition commentLocation (c : NormalizedComment.t) : string :=
  match NormalizedComment.filePath c with
  | Some filePath =>
      if truthy filePath then
        if lineTruthy (NormalizedComment.line c)
        then "`" ++ filePath ++ ":" ++ lineText (NormalizedComment.line c) ++ "`"
        else "`" ++ filePath ++ "`"
      else ""
  | None => ""
  end.

Definition stateTag (c : NormalizedComment.t) : string :=
  match NormalizedComment.state c with
  | Some state => if truthy state then " [" ++ state ++ "]" else ""
  | None => ""
  end.

(** The line [### #num @author stateTag location]. *)
Definition commentHeader (num : nat) (c : NormalizedComment.t) : string :=
  "### #" ++ Number_toString (Z.of_nat num) ++ " @" ++ NormalizedComment.author c
  ++ stateTag c ++ " " ++ commentLocation c.

(** The lines of the body: a quote for a short one-line body, a code
    fence otherwise. *)
Definition commentBody (c : NormalizedComment.t) : list string :=
  if ((utf16Length (NormalizedComment.body c) <? 200)%nat
      && negb (includes (NormalizedComment.body c) newline))%bool
  then [ "> " ++ NormalizedComment.body c ]
  else [ ""; "```"; trim (NormalizedComment.body c); "```" ].

(** The [for] loop of [renderPrompt], from index [i]. *)
Fixpoint renderComments (i : nat) (comments : list NormalizedComment.t)
    : list string :=
  match comments with
  | [] => []
  | c :: rest =>
      (commentHeader (i + 1) c :: commentBody c ++ [ "" ])
      ++ renderComments (S i) rest
  end.

Definition promptHeader (prView : PRView.t) : list string :=
  [ "# PR #" ++ popText (splitOn "/" (PRView.url prView)) ++ ": " ++ PRView.title prView;
    "";
    PRView.url prView ++ " | `" ++ PRView.headRefName prView ++ "` → `"
      ++ PRView.baseRefName prView ++ "`";
    "";
    "## Task";
    "";
    "Review comments below. For each: **FIX** (code change needed), **REPLY** (question/suggestion), or **IGNORE**.";
    "";
    "1. Make code fixes for FIX items";
    "2. End with a report: classification + action/reply for each comment";
    "" ].

Definition renderLines (prView : PRView.t) (comments : list NormalizedComment.t)
    : list string :=
  (promptHeader prView
   ++ if (List.length comments =? 0)%nat then
        [ "---"; "";
          "**No pending review comments found.** All threads resolved or only bot comments.";
          "" ]
      else
        [ "---"; "";
          ("## Comments (" ++ Number_toString (Z.of_nat (List.length comments))
           ++ ")")%string;
          "" ]
        ++ renderComments 0 comments)%list.

Definition renderPrompt (prView : PRView.t) (comments : list NormalizedComment.t)
    : string :=
  String.concat newline (renderLines prView comments).
End Render.

(* ------------------------------------------------------------------ *)
(** ** [pr2cursor.ts]: the command line

    [parseInt(s, 10)] is a parameter, [None] for NaN; [process.exit] ends
    the function with an exit code. *)

Inductive ParsedArgs : Type :=
| ExitWith (code : Z)
| Parsed (prNumber : Z) (repo : option string).

Section ParseArgs.
Variable parseInt : string -> option Z.

Definition parseArgs (args : list string) : ParsedArgs :=
  if ((List.length args =? 0)%nat
      || existsb (String.eqb "--help") args
      || existsb (String.eqb "-h") args)%bool
  then ExitWith 0
  else
    match nth_error args 0 with
    | None => ExitWith 1
    | Some first =>
        match parseInt first with
        | None => ExitWith 1
        | Some prNumber =>
            if prNumber <=? 0 then ExitWith 1
            else
              match nth_error args 1 with
              | Some repo =>
                  if truthy repo then
                    if negb (includes repo "/") then ExitWith 1
                    else Parsed prNumber (Some repo)
                  else Parsed prNumber None
              | None => Parsed prNumber None
              end
        end
    end.
End ParseArgs.

(* ------------------------------------------------------------------ *)
(** ** More sample inputs *)

Module MoreSamples.
Import Sample.

(** A JSON reader for arrays of natural numbers, [[1,2,3]], enough to
    run [parseGhPaginatedJson] on. *)
Inductive TinyJson : Type :=
| TinyNumber (n : Z)
| TinyArray (elements : list Z).

Fixpoint tinyElements (cs : list ascii) (current : option Z) (acc : list Z)
    : option (list Z) :=
  match cs with
  | [] => None
  | c :: rest =>
      match digit c with
      | Some d =>
          tinyElements rest
            (Some (10 * (match current with Some n => n | None => 0 end) + d)) acc
      | None =>
          if Ascii.eqb c "," then
            match current with
            | Some n => tinyElements rest None (acc ++ [ n ])%list
            | None => None
            end
          else if Ascii.eqb c "]" then
            match rest, current with
            | [], Some n => Some (acc ++ [ n ])%list
            | [], None => match acc with [] => Some [] | _ => None end
            | _, _ => None
            end
          else None
      end
  end.

Definition tiny_parse (text : string) : option TinyJson :=
  match list_ascii_of_string text with
  | "["%char :: rest =>
      option_map TinyArray (tinyElements rest None [])
  | _ => None
  end.

Definition tiny_asArray (j : TinyJson) : option (list TinyJson) :=
  match j with
  | TinyArray elements => Some (map TinyNumber elements)
  | TinyNumber _ => None
  end.

(** [parseInt(s, 10)] on plain decimal digits. *)
Definition decimal_parseInt (s : string) : option Z :=
  match s with
  | EmptyString => None
  | _ => digits (list_ascii_of_string s) 0
  end.

Definition followUp : IssueComment.t := conversation 104 "alice" T5 "pushed a fix".

(** A conversation comment of the PR author whose timestamp is not a date. *)
Definition undatedReply : IssueComment.t := conversation 105 "alice" "yesterday" "ok".



(** A raw thread whose last message comes from a deleted account. *)
Definition asked : RawMessage.t :=
  {| RawMessage.id := "40"; RawMessage.author := Some "dave";
     RawMessage.createdAt := T1; RawMessage.body := "why?";
     RawMessage.url := "https://github.com/o/r/pull/7#d40" |}.
Definition ghost : RawMessage.t :=
  {| RawMessage.id := "41"; RawMessage.author := None;
     RawMessage.createdAt := T2; RawMessage.body := "same question";
     RawMessage.url := "https://github.com/o/r/pull/7#d41" |}.
Definition ghostThread : RawThread.t :=
  {| RawThread.path := "src/app.ts";
     RawThread.line := None;
     RawThread.originalLine := Some 9;
     RawThread.isResolved := false;
     RawThread.isOutdated := false;
     RawThread.comments := Some [ asked; ghost ] |}.

(** [n] copies of a text. *)
Fixpoint repeatText (n : nat) (s : string) : string :=
  match n with
  | O => ""
  | S n' => s ++ repeatText n' s
  end.

(** A comment whose body is a hundred accented letters: 100 characters,
    200 bytes. *)
Definition accented : NormalizedComment.t :=
  {| NormalizedComment.id := "comment-9";
     NormalizedComment.kind := pr_comment;
     NormalizedComment.author := "carol";
     NormalizedComment.createdAt := Some T1;
     NormalizedComment.state := None;
     NormalizedComment.filePath := None;
     NormalizedComment.line := None;
     NormalizedComment.isResolved := None;
     NormalizedComment.body := repeatText 100 "é";
     NormalizedComment.url := None;
     NormalizedComment.isBot := false |}.
End MoreSamples.

(* ------------------------------------------------------------------ *)
(** ** Facts about the containers *)

Lemma lastOf_In {A : Type} (xs : list A) (x : A) :
  lastOf xs = Some x -> In x xs.
Proof.
  induction xs as [|y [|z ys] IH]; simpl; intros E.
  - discriminate.
  - injection E as ->. now left.
  - right. now apply IH.
Qed.

Lemma lastOf_None {A : Type} (xs : list A) : lastOf xs = None -> xs = [].
Proof.
  induction xs as [|y [|z ys] IH]; simpl; intros E; try easy.
  specialize (IH E). discriminate.
Qed.

Section JsMapFacts.
Context {V : Type}.
Implicit Types (m : JsMap V) (k : string) (v : V).

Lemma Map_get_set m k k' v :
  Map_get k' (Map_set k v m) = if (k =? k')%string then Some v else Map_get k' m.
Proof.
  induction m as [|[k0 v0] m IH]; simpl.
  - reflexivity.
  - destruct (String.eqb_spec k0 k) as [->|Hne]; simpl.
    + destruct (String.eqb_spec k k'); reflexivity.
    + destruct (String.eqb_spec k0 k') as [->|Hne']; simpl.
      * destruct (String.eqb_spec k k'); [congruence|reflexivity].
      * exact IH.
Qed.

Lemma Map_set_In m k v k' v' :
  In (k', v') (Map_set k v m) -> (k' = k /\ v' = v) \/ In (k', v') m.
Proof.
  induction m as [|[k0 v0] m IH]; simpl.
  - intros [E|[]]. injection E as <- <-. now left.
  - destruct (String.eqb_spec k0 k) as [->|Hne]; simpl.
    + intros [E|H]; [injection E as <- <-; now left|now right; right].
    + intros [E|H]; [now right; left|].
      destruct (IH H) as [?|?]; [now left|now right; right].
Qed.

Lemma Map_get_In m k v : Map_get k m = Some v -> In (k, v) m.
Proof.
  induction m as [|[k0 v0] m IH]; simpl; [discriminate|].
  destruct (String.eqb_spec k0 k) as [->|Hne].
  - intros E. injection E as ->. now left.
  - intros E. right. now apply IH.
Qed.

(** Keys stay pairwise distinct under [set]. *)
Lemma Map_set_keys m k v :
  map fst (Map_set k v m) =
  match Map_get k m with
  | Some _ => map fst m
  | None => (map fst m ++ [k])%list
  end.
Proof.
  induction m as [|[k0 v0] m IH]; simpl; [reflexivity|].
  destruct (String.eqb_spec k0 k) as [->|Hne]; simpl; [reflexivity|].
  rewrite IH. now destruct (Map_get k m).
Qed.

Lemma Map_get_None_keys m k : Map_get k m = None -> ~ In k (map fst m).
Proof.
  induction m as [|[k0 v0] m IH]; simpl; [tauto|].
  destruct (String.eqb_spec k0 k) as [->|Hne]; [discriminate|].
  intros E [H|H]; [congruence|now apply IH].
Qed.

Lemma Map_set_NoDup m k v :
  NoDup (map fst m) -> NoDup (map fst (Map_set k v m)).
Proof.
  intros Hnd. rewrite Map_set_keys.
  destruct (Map_get k m) eqn:E; [exact Hnd|].
  apply NoDup_rev in Hnd. rewrite <- (rev_involutive (map fst m ++ [k])%list).
  apply NoDup_rev. rewrite rev_app_distr. simpl. constructor; [|exact Hnd].
  rewrite <- in_rev. now apply Map_get_None_keys.
Qed.
End JsMapFacts.

Section ArraySortFacts.
Context {A : Type} (comparefn : A -> A -> option Z).

Lemma sortInsert_perm x l : Permutation (sortInsert comparefn x l) (x :: l).
Proof.
  induction l as [|y l IH]; simpl; [reflexivity|].
  destruct (sortLe comparefn x y); [reflexivity|].
  rewrite IH. apply perm_swap.
Qed.

Lemma Array_sort_perm l : Permutation (Array_sort comparefn l) l.
Proof.
  induction l as [|x l IH]; simpl; [reflexivity|].
  rewrite sortInsert_perm. now constructor.
Qed.

Lemma Array_sort_In l x : In x (Array_sort comparefn l) <-> In x l.
Proof.
  split; apply Permutation_in; [|symmetry]; apply Array_sort_perm.
Qed.
End ArraySortFacts.

(* ------------------------------------------------------------------ *)
(** ** Where an output comment comes from *)

Section Provenance.
Context {host : Host}.

Lemma reviewStep_entries prView ala m review :
  (forall a r, In (a, r) m -> In r (PRView.reviews prView) /\ reviewSurvives prView ala a r) ->
  In review (PRView.reviews prView) ->
  forall a r, In (a, r) (reviewStep prView ala m review) ->
    In r (PRView.reviews prView) /\ reviewSurvives prView ala a r.
Proof.
  intros Hm Hin a r. unfold reviewStep.
  destruct (Review.author review) as [author|] eqn:Ea; [|apply Hm].
  destruct (isLikelyBot author) eqn:Eb; [apply Hm|].
  destruct (String.eqb_spec author (PRView.author prView)) as [|Hne]; [apply Hm|].
  destruct (clearedByActivity ala (Review.submittedAt review)) eqn:Ec; [apply Hm|].
  assert (Hnew : forall a r, In (a, r) (Map_set author review m) ->
            In r (PRView.reviews prView) /\ reviewSurvives prView ala a r).
  { intros a' r' H. apply Map_set_In in H as [[-> ->]|H]; [|now apply Hm].
    split; [exact Hin|]. repeat split; assumption. }
  destruct (Map_get author m) as [existing|]; [|apply Hnew].
  destruct (submittedLater review existing); [apply Hnew|apply Hm].
Qed.

Lemma fold_reviewStep_entries prView ala rs m :
  (forall a r, In (a, r) m -> In r (PRView.reviews prView) /\ reviewSurvives prView ala a r) ->
  incl rs (PRView.reviews prView) ->
  forall a r, In (a, r) (fold_left (reviewStep prView ala) rs m) ->
    In r (PRView.reviews prView) /\ reviewSurvives prView ala a r.
Proof.
  revert m. induction rs as [|x rs IH]; simpl; intros m Hm Hincl; [exact Hm|].
  apply IH.
  - apply reviewStep_entries; [exact Hm|]. apply Hincl. now left.
  - intros y Hy. apply Hincl. now right.
Qed.

(** Every entry of the map is a verdict of the PR that passed the
    filters of the first loop, filed under its author. *)
Lemma latestByAuthor_entries prView ala a r :
  In (a, r) (latestByAuthor prView ala) ->
  In r (PRView.reviews prView) /\ reviewSurvives prView ala a r.
Proof.
  apply fold_reviewStep_entries; [intros ? ? []|apply incl_refl].
Qed.

Lemma fold_reviewStep_NoDup prView ala rs m :
  NoDup (map fst m) -> NoDup (map fst (fold_left (reviewStep prView ala) rs m)).
Proof.
  revert m. induction rs as [|x rs IH]; simpl; intros m Hm; [exact Hm|].
  apply IH. unfold reviewStep.
  destruct (Review.author x) as [author|]; [|exact Hm].
  destruct (isLikelyBot author); [exact Hm|].
  destruct (author =? PRView.author prView)%string; [exact Hm|].
  destruct (clearedByActivity ala (Review.submittedAt x)); [exact Hm|].
  destruct (Map_get author m) as [existing|]; [|now apply Map_set_NoDup].
  destruct (submittedLater x existing); [now apply Map_set_NoDup|exact Hm].
Qed.

Lemma latestByAuthor_NoDup prView ala :
  NoDup (map fst (latestByAuthor prView ala)).
Proof. apply fold_reviewStep_NoDup. constructor. Qed.

Lemma emitReview_In prView a r n :
  In n (emitReview prView (a, r)) ->
  NormalizedComment.kind n = review_body /\
  NormalizedComment.author n = a /\
  NormalizedComment.body n = reviewBodyText r /\
  NormalizedComment.createdAt n = orUndefined (Review.submittedAt r) /\
  NormalizedComment.state n = Some (Review.state r) /\
  NormalizedComment.isBot n = false /\
  (hasBody r = true \/ Review.state r = "CHANGES_REQUESTED").
Proof.
  unfold emitReview.
  destruct (hasBody r) eqn:Eh; simpl.
  - rewrite andb_false_r. simpl. intros [<-|[]]. simpl. intuition.
  - rewrite andb_true_r.
    destruct (Review.state r =? "APPROVED")%string; [intros []|].
    destruct (String.eqb_spec (Review.state r) "CHANGES_REQUESTED") as [E|E];
      simpl; [|intros []].
    intros [<-|[]]. simpl. intuition.
Qed.

Lemma emitIssueComment_In prAuthor ala c n :
  In n (emitIssueComment prAuthor ala c) ->
  exists author,
    IssueComment.user c = Some author /\
    n = issueToNormalized author c /\
    trim (issueBody c) <> "" /\
    isLikelyBot author = false /\
    author <> prAuthor /\
    clearedByActivity ala (Some (IssueComment.created_at c)) = false.
Proof.
  unfold emitIssueComment.
  destruct (IssueComment.user c) as [author|]; [|intros []].
  destruct (String.eqb_spec (trim (issueBody c)) "") as [|Ht]; [intros []|].
  destruct (isLikelyBot author) eqn:Eb; [intros []|].
  destruct (String.eqb_spec author prAuthor) as [|Hne]; [intros []|].
  destruct (clearedByActivity ala (Some (IssueComment.created_at c))) eqn:Ec;
    [intros []|].
  intros [<-|[]]. exists author. intuition.
Qed.

Lemma isReviewerComment_true prAuthor c :
  isReviewerComment prAuthor c = true <->
  isLikelyBot (InlineMessage.author c) = false /\ InlineMessage.author c <> prAuthor.
Proof.
  unfold isReviewerComment.
  destruct (isLikelyBot (InlineMessage.author c)); [intuition discriminate|].
  destruct (String.eqb_spec (InlineMessage.author c) prAuthor);
    intuition (try discriminate; try congruence).
Qed.

Lemma emitThread_In prAuthor thread n :
  In n (emitThread prAuthor thread) ->
  InlineComment.isResolved thread = false /\
  InlineComment.isOutdated thread = false /\
  exists c,
    In c (InlineComment.comments thread) /\
    isReviewerComment prAuthor c = true /\
    n = inlineToNormalized thread c.
Proof.
  unfold emitThread.
  destruct (InlineComment.isResolved thread); [intros []|].
  destruct (InlineComment.isOutdated thread); [intros []|].
  set (rc := filter (isReviewerComment prAuthor) (InlineComment.comments thread)).
  assert (Hrc : forall l c, incl l rc -> lastOf l = Some c ->
            In c (InlineComment.comments thread) /\
            isReviewerComment prAuthor c = true).
  { intros l c Hl E. apply lastOf_In, Hl in E. unfold rc in E.
    now apply filter_In in E. }
  destruct (List.length rc =? 0)%nat; [intros []|].
  destruct (existsb (byAuthor prAuthor) (InlineComment.comments thread)).
  - destruct (lastOf (filter (byAuthor prAuthor) (InlineComment.comments thread)))
      as [lastAuthorReply|]; [|intros []].
    match goal with |- context [lastOf (filter ?p rc)] =>
      destruct (lastOf (filter p rc)) as [c|] eqn:E;
      [apply (Hrc (filter p rc)) in E; [|apply incl_filter]|intros []] end.
    intros [<-|[]]. repeat split. exists c. intuition.
  - destruct (lastOf rc) as [c|] eqn:E; [|intros []].
    apply (Hrc rc) in E; [|apply incl_refl].
    intros [<-|[]]. repeat split. exists c. intuition.
Qed.

(** The returned sequence holds exactly the comments of [allComments]. *)
Lemma normalizeAll_In prView issueComments inlineComments n :
  In n (NormalizeResult.comments (normalizeAll prView issueComments inlineComments))
  <-> In n (allComments prView issueComments inlineComments).
Proof. unfold normalizeAll. simpl. apply Array_sort_In. Qed.

(** A comment of [allComments] was pushed by exactly one of the loops. *)
Lemma allComments_In prView issueComments inlineComments n :
  In n (allComments prView issueComments inlineComments) ->
  let prAuthor := PRView.author prView in
  let ala := findAuthorLastActivity prAuthor issueComments inlineComments in
  (exists a r, In (a, r) (latestByAuthor prView ala) /\ In n (emitReview prView (a, r))) \/
  (exists c, In c issueComments /\ In n (emitIssueComment prAuthor ala c)) \/
  (exists t, In t inlineComments /\ In n (emitThread prAuthor t)).
Proof.
  unfold allComments, normalizeReviews, normalizeIssueComments, normalizeInlineComments.
  intros H. simpl. rewrite !in_app_iff, !in_flat_map in H.
  destruct H as [[[a r] H]|[[c H]|[t H]]].
  - left. now exists a, r.
  - right. left. now exists c.
  - right. right. now exists t.
Qed.
End Provenance.

(* ------------------------------------------------------------------ *)
(** ** Invariants of the returned sequence *)

Section Invariants.
Context {host : Host}.

(** What all three loops guarantee of a comment they push. *)
Lemma allComments_pushed prView issueComments inlineComments n :
  In n (allComments prView issueComments inlineComments) ->
  NormalizedComment.author n <> PRView.author prView /\
  isLikelyBot (NormalizedComment.author n) = false /\
  NormalizedComment.isBot n = false.
Proof.
  intros H. apply allComments_In in H. simpl in H.
  destruct H as [(a & r & Hm & He)|[(c & _ & He)|(t & _ & He)]].
  - apply latestByAuthor_entries in Hm as (_ & _ & Hbot & Hne & _).
    apply emitReview_In in He as (_ & -> & _ & _ & _ & Hb & _). auto.
  - apply emitIssueComment_In in He as (a & _ & -> & _ & Hbot & Hne & _).
    simpl. auto.
  - apply emitThread_In in He as (_ & _ & c & _ & Hr & ->).
    apply isReviewerComment_true in Hr as [Hbot Hne]. simpl. auto.
Qed.

(** C6. Self-comment exclusion: whatever the input, no comment returned
    by [normalizeAll] is authored by the PR author, be it a review
    summary, a conversation comment or an inline comment. *)
Theorem normalizeAll_no_self_comment prView issueComments inlineComments :
  Forall (fun n => NormalizedComment.author n <> PRView.author prView)
    (NormalizeResult.comments (normalizeAll prView issueComments inlineComments)).
Proof.
  apply Forall_forall. intros n H.
  apply normalizeAll_In in H. apply allComments_pushed in H. tauto.
Qed.

(** C7. Bot exclusion: whatever the input, [isLikelyBot] is false of
    the author of every comment returned by [normalizeAll]. *)
Theorem normalizeAll_no_bot_author prView issueComments inlineComments :
  Forall (fun n => isLikelyBot (NormalizedComment.author n) = false)
    (NormalizeResult.comments (normalizeAll prView issueComments inlineComments)).
Proof.
  apply Forall_forall. intros n H.
  apply normalizeAll_In in H. apply allComments_pushed in H. tauto.
Qed.

(** C10. The [isBot] field is the constant [false]: whatever the input,
    every comment returned by [normalizeAll] carries [isBot = false]. *)
Theorem normalizeAll_isBot_false prView issueComments inlineComments :
  Forall (fun n => NormalizedComment.isBot n = false)
    (NormalizeResult.comments (normalizeAll prView issueComments inlineComments)).
Proof.
  apply Forall_forall. intros n H.
  apply normalizeAll_In in H. apply allComments_pushed in H. tauto.
Qed.

Lemma allComments_inline prView issueComments inlineComments n :
  In n (allComments prView issueComments inlineComments) ->
  NormalizedComment.kind n = inline_comment ->
  In n (normalizeInlineComments inlineComments (PRView.author prView)).
Proof.
  intros H Hk. apply allComments_In in H. simpl in H.
  destruct H as [(a & r & _ & He)|[(c & _ & He)|(t & Ht & He)]].
  - apply emitReview_In in He as (Hk' & _). congruence.
  - apply emitIssueComment_In in He as (a & _ & -> & _). discriminate.
  - unfold normalizeInlineComments. apply in_flat_map. now exists t.
Qed.

(** C8. Resolved/outdated thread suppression: a thread whose resolved
    flag or outdated flag is set pushes nothing, whatever its messages;
    the inline normalizer returns what it returns without that thread;
    and every inline comment returned by [normalizeAll] comes from one
    of the other threads. *)
Theorem resolved_or_outdated_thread_suppressed
    prView issueComments before thread after :
  InlineComment.isResolved thread = true \/ InlineComment.isOutdated thread = true ->
  let prAuthor := PRView.author prView in
  emitThread prAuthor thread = [] /\
  normalizeInlineComments (before ++ thread :: after) prAuthor
    = normalizeInlineComments (before ++ after) prAuthor /\
  forall n,
    In n (NormalizeResult.comments
            (normalizeAll prView issueComments (before ++ thread :: after))) ->
    NormalizedComment.kind n = inline_comment ->
    In n (normalizeInlineComments (before ++ after) prAuthor).
Proof.
  intros Hflag prAuthor.
  assert (He : emitThread prAuthor thread = []).
  { unfold emitThread. destruct Hflag as [->| ->]; [reflexivity|].
    now destruct (InlineComment.isResolved thread). }
  assert (Hn : normalizeInlineComments (before ++ thread :: after) prAuthor
               = normalizeInlineComments (before ++ after) prAuthor).
  { unfold normalizeInlineComments. rewrite !flat_map_app. simpl.
    now rewrite He. }
  repeat split; [exact He|exact Hn|].
  intros n H Hk. rewrite <- Hn.
  apply normalizeAll_In in H.
  now apply (allComments_inline prView issueComments).
Qed.
End Invariants.

(* ------------------------------------------------------------------ *)
(** ** Bodies *)

Section Bodies.
Context {host : Host}.

Lemma reviewBodyText_nonempty review : reviewBodyText review <> "".
Proof.
  unfold reviewBodyText, truthy.
  destruct (Review.body review) as [b|]; [|discriminate].
  destruct (String.eqb_spec b ""); simpl; [discriminate|assumption].
Qed.

(** The review loop and the conversation loop only push non-empty
    bodies (the host trimming the empty string to itself); the inline
    loop has no such test. *)
Lemma review_and_conversation_bodies_nonempty
    prView issueComments inlineComments n :
  trim "" = "" ->
  In n (NormalizeResult.comments (normalizeAll prView issueComments inlineComments)) ->
  NormalizedComment.kind n <> inline_comment ->
  NormalizedComment.body n <> "".
Proof.
  intros Htrim H Hk. apply normalizeAll_In in H. apply allComments_In in H.
  simpl in H. destruct H as [(a & r & _ & He)|[(c & _ & He)|(t & _ & He)]].
  - apply emitReview_In in He as (_ & _ & -> & _). apply reviewBodyText_nonempty.
  - apply emitIssueComment_In in He as (a & _ & -> & Hb & _). simpl.
    intros E. apply Hb. now rewrite E.
  - apply emitThread_In in He as (_ & _ & m & _ & _ & ->). now elim Hk.
Qed.
End Bodies.

(* ------------------------------------------------------------------ *)
(** ** Merge and order *)

Lemma StronglySorted_tail {A : Type} (R : A -> A -> Prop) (l1 l2 : list A) :
  StronglySorted R (l1 ++ l2) -> StronglySorted R l2.
Proof.
  induction l1 as [|x l1 IH]; simpl; intros H; [exact H|].
  apply IH. now apply StronglySorted_inv in H.
Qed.

Section StableSort.
Context {A : Type} (comparefn : A -> A -> option Z).
Variables (valid : A -> Prop) (key : A -> Z).
Hypothesis comparefn_key :
  forall x y, valid x -> valid y -> comparefn x y = Some (key x - key y).

Let ordered (x y : A) : Prop := key x <= key y.

Lemma sortLe_key x y : valid x -> valid y -> sortLe comparefn x y = (key x <=? key y).
Proof.
  intros Hx Hy. unfold sortLe. rewrite (comparefn_key x y Hx Hy).
  destruct (Z.leb_spec (key x - key y) 0), (Z.leb_spec (key x) (key y)); lia.
Qed.

Lemma sortInsert_sorted x l :
  Forall valid (x :: l) -> StronglySorted ordered l ->
  StronglySorted ordered (sortInsert comparefn x l).
Proof.
  intros Hv Hs. induction Hs as [|y l Hs IH Hy]; simpl.
  - repeat constructor.
  - inversion Hv as [|? ? Hx Hl]; subst. inversion Hl as [|? ? Hvy Hl']; subst.
    rewrite (sortLe_key x y Hx Hvy).
    destruct (Z.leb_spec (key x) (key y)) as [Hle|Hgt].
    + constructor; [now constructor|]. constructor; [exact Hle|].
      eapply Forall_impl; [|exact Hy]. unfold ordered. intros; lia.
    + constructor; [apply IH; now constructor|].
      apply Forall_forall. intros z Hz.
      apply (Permutation_in _ (sortInsert_perm comparefn x l)) in Hz.
      destruct Hz as [<-|Hz]; [unfold ordered; lia|].
      rewrite Forall_forall in Hy. now apply Hy.
Qed.

Lemma Array_sort_valid l : Forall valid l -> Forall valid (Array_sort comparefn l).
Proof.
  intros H. rewrite Forall_forall in *. intros x Hx. apply H.
  now apply Array_sort_In in Hx.
Qed.

Lemma Array_sort_sorted l :
  Forall valid l -> StronglySorted ordered (Array_sort comparefn l).
Proof.
  induction l as [|x l IH]; simpl; intros Hv; [constructor|].
  inversion Hv; subst. apply sortInsert_sorted; [|now apply IH].
  constructor; [assumption|now apply Array_sort_valid].
Qed.

Let at_time (t : Z) (x : A) : bool := key x =? t.

Lemma sortInsert_stable t x l :
  Forall valid (x :: l) ->
  filter (at_time t) (sortInsert comparefn x l) = filter (at_time t) (x :: l).
Proof.
  induction l as [|y l IH]; intros Hv; [reflexivity|].
  inversion Hv as [|? ? Hx Hl]; subst. inversion Hl as [|? ? Hy Hl']; subst.
  cbn [sortInsert]. rewrite (sortLe_key x y Hx Hy).
  destruct (Z.leb_spec (key x) (key y)) as [Hle|Hgt]; [reflexivity|].
  cbn [filter]. rewrite IH by now constructor. cbn [filter]. unfold at_time.
  destruct (Z.eqb_spec (key x) t), (Z.eqb_spec (key y) t); try reflexivity; lia.
Qed.

(** Comments of equal time keep the order they had before the sort. *)
Lemma Array_sort_stable t l :
  Forall valid l ->
  filter (at_time t) (Array_sort comparefn l) = filter (at_time t) l.
Proof.
  induction l as [|x l IH]; intros Hv; [reflexivity|].
  inversion Hv; subst. cbn [Array_sort fold_right].
  change (fold_right (sortInsert comparefn) [] l) with (Array_sort comparefn l).
  rewrite sortInsert_stable by (constructor; [assumption|now apply Array_sort_valid]).
  cbn [filter]. now rewrite IH.
Qed.
End StableSort.

Section Order.
Context {host : Host}.

Lemma sortDate_timeOrEpoch n :
  validTimestamp n -> sortDate n = Some (timeOrEpoch n).
Proof.
  unfold validTimestamp, sortDate, timeOrEpoch, timestampOf, orUndefined.
  destruct (NormalizedComment.createdAt n) as [s|]; [|reflexivity].
  destruct (truthy s); [|reflexivity].
  intros H. specialize (H s eq_refl). now destruct (Date_parse s).
Qed.

Lemma byCreatedAt_timeOrEpoch a b :
  validTimestamp a -> validTimestamp b ->
  byCreatedAt a b = Some (timeOrEpoch a - timeOrEpoch b).
Proof.
  intros Ha Hb. unfold byCreatedAt.
  now rewrite (sortDate_timeOrEpoch a Ha), (sortDate_timeOrEpoch b Hb).
Qed.

(** C4. Ordering: when every timestamp carried by the returned comments
    is a valid date, the sequence returned by [normalizeAll] is
    non-decreasing in time, a comment without a timestamp counting as
    timestamped at the epoch origin (so no comment dated after the
    origin precedes it); it is a permutation of the concatenation of
    the three normalizers' outputs, and comments of equal time keep
    the order they have in that concatenation (the sort is stable). *)
Theorem normalizeAll_sorted_stable prView issueComments inlineComments :
  let sorted := NormalizeResult.comments
                  (normalizeAll prView issueComments inlineComments) in
  let prAuthor := PRView.author prView in
  let ala := findAuthorLastActivity prAuthor issueComments inlineComments in
  let concatenated :=
    (normalizeReviews prView ala
     ++ normalizeIssueComments issueComments prAuthor ala
     ++ normalizeInlineComments inlineComments prAuthor)%list in
  Forall validTimestamp sorted ->
  StronglySorted (fun a b => timeOrEpoch a <= timeOrEpoch b) sorted /\
  (forall before a between b after,
      sorted = (before ++ a :: between ++ b :: after)%list ->
      timestampOf b = None -> timeOrEpoch a <= 0) /\
  Permutation sorted concatenated /\
  (forall t, filter (fun n => timeOrEpoch n =? t) sorted
             = filter (fun n => timeOrEpoch n =? t) concatenated).
Proof.
  intros sorted prAuthor ala concatenated Hv.
  assert (Hs : sorted = Array_sort byCreatedAt concatenated) by reflexivity.
  assert (Hp : Permutation sorted concatenated)
    by (rewrite Hs; apply Array_sort_perm).
  assert (Hc : Forall validTimestamp concatenated).
  { rewrite Forall_forall in *. intros n Hn. apply Hv.
    now apply (Permutation_in _ (Permutation_sym Hp)). }
  assert (Hsorted : StronglySorted (fun a b => timeOrEpoch a <= timeOrEpoch b) sorted).
  { rewrite Hs.
    now apply (Array_sort_sorted byCreatedAt validTimestamp timeOrEpoch
                 byCreatedAt_timeOrEpoch). }
  repeat split.
  - exact Hsorted.
  - intros before a between b after E Hb. rewrite E in Hsorted.
    apply StronglySorted_tail in Hsorted.
    apply StronglySorted_inv in Hsorted as [_ Hall].
    rewrite Forall_forall in Hall.
    assert (Hin : In b (between ++ b :: after)) by (apply in_elt).
    specialize (Hall b Hin).
    unfold timeOrEpoch at 2 in Hall. now rewrite Hb in Hall.
  - exact Hp.
  - intros t. rewrite Hs.
    now apply (Array_sort_stable byCreatedAt validTimestamp timeOrEpoch
                 byCreatedAt_timeOrEpoch).
Qed.
End Order.

(* ------------------------------------------------------------------ *)
(** ** The activity boundary and the conversation comments *)

Section Boundary.
Context {host : Host}.

Lemma clearedByActivity_spec boundary stamp t :
  truthy stamp = true -> Date_parse stamp = Some t ->
  clearedByActivity (Some (Some boundary)) (Some stamp) = (t <=? boundary).
Proof. intros Ht Hp. simpl. now rewrite Ht, Hp. Qed.

(** A message that is not the PR author's leaves the boundary alone. *)
Lemma threadStep_other prAuthor thread last :
  (forall m, In m (InlineComment.comments thread) -> InlineMessage.author m <> prAuthor) ->
  threadStep prAuthor last thread = last.
Proof.
  unfold threadStep. induction (InlineComment.comments thread) as [|m ms IH];
    simpl; intros H; [reflexivity|].
  unfold messageStep at 2, trackActivity.
  destruct (String.eqb_spec (InlineMessage.author m) prAuthor) as [E|_].
  - exfalso. apply (H m); [now left|exact E].
  - simpl. apply IH. intros m' Hm'. apply H. now right.
Qed.

Lemma fold_threadStep_other prAuthor threads last :
  (forall thread m, In thread threads -> In m (InlineComment.comments thread) ->
                    InlineMessage.author m <> prAuthor) ->
  fold_left (threadStep prAuthor) threads last = last.
Proof.
  revert last. induction threads as [|th ths IH]; simpl; intros last H; [reflexivity|].
  rewrite threadStep_other by (intros m Hm; apply (H th m); [now left|exact Hm]).
  apply IH. intros th' m Hth Hm. apply (H th' m); [now right|exact Hm].
Qed.

(** With a single reply of the PR author among the conversation
    comments, the first loop ends on that reply's date. *)
Lemma fold_issueStep_single prAuthor reply t2 comments last :
  IssueComment.user reply = Some prAuthor ->
  truthy (IssueComment.created_at reply) = true ->
  Date_parse (IssueComment.created_at reply) = Some t2 ->
  (forall c, In c comments -> IssueComment.user c = Some prAuthor -> c = reply) ->
  last = None \/ last = Some (Some t2) ->
  fold_left (issueStep prAuthor) comments last =
  if existsb (fun c => match IssueComment.user c with
                       | Some login => (login =? prAuthor)%string
                       | None => false
                       end) comments
  then Some (Some t2) else last.
Proof.
  intros Hu Ht Hp. revert last.
  induction comments as [|c cs IH]; simpl; intros last Hall Hlast; [reflexivity|].
  assert (Hcs : forall c', In c' cs -> IssueComment.user c' = Some prAuthor -> c' = reply)
    by (intros c' Hc'; apply Hall; now right).
  assert (Hstep : issueStep prAuthor last c =
            if (match IssueComment.user c with
                | Some login => (login =? prAuthor)%string
                | None => false
                end) then Some (Some t2) else last).
  { unfold issueStep, trackActivity.
    destruct (IssueComment.user c) as [login|] eqn:Eu; [|reflexivity].
    destruct (String.eqb_spec login prAuthor) as [->|Hne]; [|reflexivity].
    rewrite (Hall c (or_introl eq_refl) Eu), Ht, Hp. simpl.
    destruct Hlast as [->| ->]; [reflexivity|]. simpl.
    now rewrite Z.ltb_irrefl. }
  rewrite Hstep.
  destruct (match IssueComment.user c with
            | Some login => (login =? prAuthor)%string
            | None => false
            end); simpl.
  - rewrite IH by auto. now destruct (existsb _ cs).
  - now apply IH.
Qed.

Lemma findAuthorLastActivity_single prAuthor reply t2 issueComments inlineComments :
  In reply issueComments ->
  IssueComment.user reply = Some prAuthor ->
  truthy (IssueComment.created_at reply) = true ->
  Date_parse (IssueComment.created_at reply) = Some t2 ->
  (forall c, In c issueComments -> IssueComment.user c = Some prAuthor -> c = reply) ->
  (forall thread m, In thread inlineComments -> In m (InlineComment.comments thread) ->
                    InlineMessage.author m <> prAuthor) ->
  findAuthorLastActivity prAuthor issueComments inlineComments = Some (Some t2).
Proof.
  intros Hin Hu Ht Hp Hall Hth. unfold findAuthorLastActivity.
  rewrite (fold_threadStep_other _ _ _ Hth).
  rewrite (fold_issueStep_single prAuthor reply t2) by auto.
  assert (E : existsb (fun c => match IssueComment.user c with
                                | Some login => (login =? prAuthor)%string
                                | None => false
                                end) issueComments = true).
  { apply existsb_exists. exists reply. split; [exact Hin|].
    rewrite Hu. apply String.eqb_refl. }
  now rewrite E.
Qed.

(** A conversation comment at or before an existing boundary is
    dropped by the loop and appears nowhere in the returned sequence. *)
Lemma issue_comment_cleared prView issueComments inlineComments boundary c author t :
  findAuthorLastActivity (PRView.author prView) issueComments inlineComments
    = Some (Some boundary) ->
  IssueComment.user c = Some author ->
  truthy (IssueComment.created_at c) = true ->
  Date_parse (IssueComment.created_at c) = Some t ->
  t <= boundary ->
  emitIssueComment (PRView.author prView) (Some (Some boundary)) c = [] /\
  ~ In (issueToNormalized author c)
       (NormalizeResult.comments (normalizeAll prView issueComments inlineComments)).
Proof.
  intros Hb Hu Ht Hp Hle.
  assert (Hc : clearedByActivity (Some (Some boundary))
                 (Some (IssueComment.created_at c)) = true).
  { rewrite (clearedByActivity_spec _ _ t Ht Hp). now apply Z.leb_le. }
  split.
  - unfold emitIssueComment. rewrite Hu, Hc.
    destruct (trim (issueBody c) =? "")%string; [reflexivity|].
    destruct (isLikelyBot author); [reflexivity|].
    now destruct (author =? PRView.author prView)%string.
  - intros H. apply normalizeAll_In in H. apply allComments_In in H.
    simpl in H. rewrite Hb in H.
    destruct H as [(a & r & _ & He)|[(c' & _ & He)|(th & _ & He)]].
    + apply emitReview_In in He as (Hk & _). discriminate.
    + apply emitIssueComment_In in He as (a' & _ & E & _ & _ & _ & Hc').
      assert (Es : IssueComment.created_at c = IssueComment.created_at c')
        by (apply (f_equal NormalizedComment.createdAt) in E; simpl in E; congruence).
      rewrite <- Es in Hc'. congruence.
    + apply emitThread_In in He as (_ & _ & m & _ & _ & E). discriminate.
Qed.

(** A reviewer's conversation comment after the boundary is returned. *)
Lemma issue_comment_kept prView issueComments inlineComments boundary c author t :
  findAuthorLastActivity (PRView.author prView) issueComments inlineComments
    = Some (Some boundary) ->
  In c issueComments ->
  IssueComment.user c = Some author ->
  Date_parse (IssueComment.created_at c) = Some t ->
  boundary < t ->
  trim (issueBody c) <> "" ->
  isLikelyBot author = false ->
  author <> PRView.author prView ->
  In (issueToNormalized author c)
     (NormalizeResult.comments (normalizeAll prView issueComments inlineComments)).
Proof.
  intros Hb Hin Hu Hp Hlt Hbody Hbot Hne.
  apply normalizeAll_In. unfold allComments. rewrite Hb.
  apply in_or_app. right. apply in_or_app. left.
  unfold normalizeIssueComments. apply in_flat_map. exists c. split; [exact Hin|].
  unfold emitIssueComment. rewrite Hu, Hbot.
  destruct (String.eqb_spec (trim (issueBody c)) ""); [contradiction|].
  destruct (String.eqb_spec author (PRView.author prView)); [contradiction|].
  assert (Hc : clearedByActivity (Some (Some boundary))
                 (Some (IssueComment.created_at c)) = false).
  { simpl. rewrite Hp. destruct (truthy _); [|reflexivity]. simpl.
    apply Z.leb_gt. exact Hlt. }
  rewrite Hc. now left.
Qed.

(** C5. Boundary clearing. First, in general: when the PR author's
    last activity is the date [boundary], a conversation comment
    timestamped at or before it is dropped and is absent from what
    [normalizeAll] returns, and a reviewer's non-blank comment
    timestamped after it is returned. Second, the scenario: when the PR
    author's only activity is one conversation reply at [t2], a
    reviewer's comment timestamped before [t2] is absent from the
    result and a reviewer's non-blank comment after [t2] is in it. *)
Theorem boundary_clearing prView issueComments inlineComments :
  let prAuthor := PRView.author prView in
  let returned := NormalizeResult.comments
                    (normalizeAll prView issueComments inlineComments) in
  (forall boundary c author t,
      findAuthorLastActivity prAuthor issueComments inlineComments
        = Some (Some boundary) ->
      In c issueComments ->
      IssueComment.user c = Some author ->
      truthy (IssueComment.created_at c) = true ->
      Date_parse (IssueComment.created_at c) = Some t ->
      (t <= boundary ->
         emitIssueComment prAuthor (Some (Some boundary)) c = [] /\
         ~ In (issueToNormalized author c) returned) /\
      (boundary < t -> trim (issueBody c) <> "" ->
         isLikelyBot author = false -> author <> prAuthor ->
         In (issueToNormalized author c) returned)) /\
  (forall reply t2 c reviewer t,
      In reply issueComments ->
      IssueComment.user reply = Some prAuthor ->
      truthy (IssueComment.created_at reply) = true ->
      Date_parse (IssueComment.created_at reply) = Some t2 ->
      (forall c', In c' issueComments ->
                  IssueComment.user c' = Some prAuthor -> c' = reply) ->
      (forall thread m, In thread inlineComments ->
                        In m (InlineComment.comments thread) ->
                        InlineMessage.author m <> prAuthor) ->
      In c issueComments ->
      IssueComment.user c = Some reviewer ->
      isLikelyBot reviewer = false -> reviewer <> prAuthor ->
      truthy (IssueComment.created_at c) = true ->
      Date_parse (IssueComment.created_at c) = Some t ->
      (t < t2 -> ~ In (issueToNormalized reviewer c) returned) /\
      (t2 < t -> trim (issueBody c) <> "" ->
         In (issueToNormalized reviewer c) returned)).
Proof.
  intros prAuthor returned. split.
  - intros boundary c author t Hb Hin Hu Ht Hp. split.
    + intros Hle. now apply (issue_comment_cleared _ _ _ _ _ _ t).
    + intros Hlt Hbody Hbot Hne.
      now apply (issue_comment_kept _ _ _ boundary _ _ t).
  - intros reply t2 c reviewer t Hr Hru Hrt Hrp Honly Hth Hin Hu Hbot Hne Ht Hp.
    assert (Hb : findAuthorLastActivity prAuthor issueComments inlineComments
                 = Some (Some t2))
      by now apply (findAuthorLastActivity_single prAuthor reply).
    split.
    + intros Hlt.
      apply (issue_comment_cleared _ _ _ t2 _ _ t); auto. lia.
    + intros Hlt Hbody.
      now apply (issue_comment_kept _ _ _ t2 _ _ t).
Qed.
End Boundary.

(* ------------------------------------------------------------------ *)
(** ** The verdict kept for each author *)

Section LatestVerdict.
Context {host : Host}.

Lemma submittedLater_spec review existing :
  submittedLater review existing = true <->
  exists t e, verdictTime review = Some t /\ verdictTime existing = Some e /\ e < t.
Proof.
  unfold submittedLater, verdictTime.
  destruct (Review.submittedAt review) as [s|];
    [|split; [discriminate|intros (t & e & H & _); discriminate]].
  destruct (Review.submittedAt existing) as [s'|];
    [|split; [discriminate|intros (t & e & _ & H & _); discriminate]].
  destruct (truthy s); simpl;
    [|split; [discriminate|intros (t & e & H & _); discriminate]].
  destruct (truthy s'); simpl;
    [|split; [discriminate|intros (t & e & _ & H & _); discriminate]].
  unfold Date_gt.
  destruct (Date_parse s) as [t|];
    [|split; [discriminate|intros (t & e & H & _); discriminate]].
  destruct (Date_parse s') as [e|];
    [|split; [discriminate|intros (t' & e & _ & H & _); discriminate]].
  rewrite Z.ltb_lt. split.
  - intros H. now exists t, e.
  - intros (t' & e' & Ht & He & H). congruence.
Qed.

(** Looking one author up after the first loop is running
    [pickLatest] over that author's surviving verdicts. *)
Lemma fold_reviewStep_get prView ala author rs m :
  Map_get author (fold_left (reviewStep prView ala) rs m) =
  fold_left pickLatest
    (filter (fun review =>
               match Review.author review with
               | Some login =>
                   (login =? author)%string
                   && negb (isLikelyBot login)
                   && negb (login =? PRView.author prView)%string
                   && negb (clearedByActivity ala (Review.submittedAt review))
               | None => false
               end) rs)
    (Map_get author m).
Proof.
  revert m. induction rs as [|r rs IH]; intros m; [reflexivity|].
  cbn [fold_left filter]. rewrite IH. clear IH. unfold reviewStep.
  destruct (Review.author r) as [login|]; [|reflexivity].
  destruct (isLikelyBot login); [now rewrite andb_false_r|].
  destruct (login =? PRView.author prView)%string; [now rewrite andb_false_r|].
  destruct (clearedByActivity ala (Review.submittedAt r)); [now rewrite andb_false_r|].
  rewrite !andb_true_r.
  destruct (String.eqb_spec login author) as [->|Hne]; cbn [fold_left].
  - destruct (Map_get author m) as [existing|] eqn:Eg; cbn [pickLatest].
    + destruct (submittedLater r existing).
      * now rewrite Map_get_set, String.eqb_refl.
      * now rewrite Eg.
    + now rewrite Map_get_set, String.eqb_refl.
  - assert (Hset : Map_get author (Map_set login r m) = Map_get author m).
    { rewrite Map_get_set. now destruct (String.eqb_spec login author). }
    destruct (Map_get login m) as [existing|]; [|now rewrite Hset].
    destruct (submittedLater r existing); [now rewrite Hset|reflexivity].
Qed.

(** Starting from a kept verdict, the loop ends on a verdict that is
    the starting one whenever that one has no time, and that carries
    the greatest time otherwise. *)
Lemma fold_pickLatest first others :
  exists kept,
    fold_left pickLatest others (Some first) = Some kept /\
    In kept (first :: others) /\
    (verdictTime first = None -> kept = first) /\
    (forall t0, verdictTime first = Some t0 ->
       exists tk, verdictTime kept = Some tk /\
         forall r t, In r (first :: others) -> verdictTime r = Some t -> t <= tk).
Proof.
  revert first. induction others as [|r rs IH]; intros first.
  - exists first. repeat split; [now left|].
    intros t0 Ht. exists t0. split; [exact Ht|].
    intros r t [<-|[]] Hr. rewrite Ht in Hr. injection Hr as <-. lia.
  - cbn [fold_left pickLatest].
    destruct (submittedLater r first) eqn:El.
    + apply submittedLater_spec in El as (t & e & Ht & He & Hlt).
      destruct (IH r) as (kept & Hk & Hin & _ & Hmax).
      exists kept. repeat split; [exact Hk|now right| |].
      * intros Hn. congruence.
      * intros t0 Ht0. destruct (Hmax t Ht) as (tk & Htk & Hle).
        exists tk. split; [exact Htk|].
        intros r' t' [<-|Hr'] Ht'; [|now apply (Hle r')].
        assert (t <= tk) by (apply (Hle r); [now left|exact Ht]).
        rewrite He in Ht'. injection Ht' as <-. lia.
    + destruct (IH first) as (kept & Hk & Hin & Hnone & Hmax).
      exists kept. repeat split; [exact Hk| |exact Hnone|].
      * destruct Hin as [<-|Hin]; [now left|now right; right].
      * intros t0 Ht0. destruct (Hmax t0 Ht0) as (tk & Htk & Hle).
        exists tk. split; [exact Htk|].
        intros r' t' [<-|[<-|Hr']] Ht'.
        -- apply (Hle first); [now left|exact Ht'].
        -- assert (t0 <= tk) by (apply (Hle first); [now left|exact Ht0]).
           destruct (Z.le_gt_cases t' t0) as [|Hgt]; [lia|].
           assert (Hl : submittedLater r first = true)
             by (apply submittedLater_spec; now exists t', t0).
           congruence.
        -- apply (Hle r'); [now right|exact Ht'].
Qed.

Lemma emitReview_author prView a r :
  Forall (fun n => NormalizedComment.author n = a) (emitReview prView (a, r)).
Proof.
  apply Forall_forall. intros n H. now apply emitReview_In in H.
Qed.

(** The second loop pushes, for one author, what it pushes for the
    verdict the map holds for that author. *)
Lemma flat_map_emitReview_author prView (m : JsMap Review.t) author :
  NoDup (map fst m) ->
  filter (fun n => (NormalizedComment.author n =? author)%string)
         (flat_map (emitReview prView) m) =
  match Map_get author m with
  | Some kept => emitReview prView (author, kept)
  | None => []
  end.
Proof.
  induction m as [|[k v] m IH]; intros Hnd; [reflexivity|].
  cbn [flat_map map fst Map_get] in *. inversion Hnd as [|? ? Hk Hnd']; subst.
  rewrite filter_app, (IH Hnd').
  pose proof (emitReview_author prView k v) as Ha.
  destruct (String.eqb_spec k author) as [->|Hne].
  - assert (E : Map_get author m = None).
    { destruct (Map_get author m) eqn:E; [|reflexivity].
      apply Map_get_In in E. exfalso. apply Hk.
      now apply (in_map fst) in E. }
    rewrite E, app_nil_r.
    apply forallb_filter_id. apply forallb_forall. intros n Hn.
    rewrite Forall_forall in Ha. rewrite (Ha n Hn). apply String.eqb_refl.
  - assert (E : filter (fun n => (NormalizedComment.author n =? author)%string)
                       (emitReview prView (k, v)) = []).
    { induction Ha as [|n l Hn _ IHl]; [reflexivity|]. cbn [filter].
      destruct (String.eqb_spec (NormalizedComment.author n) author); [congruence|].
      exact IHl. }
    now rewrite E.
Qed.

(** What the second loop pushes for a kept verdict, field by field. *)
Lemma emitReview_exact prView a r :
  (hasBody r = true \/ Review.state r = "CHANGES_REQUESTED" ->
   exists n,
     emitReview prView (a, r) = [ n ] /\
     NormalizedComment.kind n = review_body /\
     NormalizedComment.author n = a /\
     NormalizedComment.state n = Some (Review.state r) /\
     NormalizedComment.createdAt n = orUndefined (Review.submittedAt r) /\
     (forall b, Review.body r = Some b -> b <> "" -> NormalizedComment.body n = b) /\
     (Review.body r = None \/ Review.body r = Some "" ->
      NormalizedComment.body n = "[" ++ Review.state r ++ "]")) /\
  (hasBody r = false -> Review.state r <> "CHANGES_REQUESTED" ->
   emitReview prView (a, r) = []).
Proof.
  assert (Hbody :
    (forall b, Review.body r = Some b -> b <> "" -> reviewBodyText r = b) /\
    (Review.body r = None \/ Review.body r = Some "" ->
     reviewBodyText r = "[" ++ Review.state r ++ "]")).
  { unfold reviewBodyText, truthy. split.
    - intros b -> Hb. now destruct (String.eqb_spec b "").
    - intros [-> | ->]; reflexivity. }
  unfold emitReview. split.
  - intros Hkeep.
    assert (E : ((Review.state r =? "APPROVED")%string && negb (hasBody r))%bool = false).
    { destruct Hkeep as [-> | ->]; [apply andb_false_r|reflexivity]. }
    assert (E' : (negb (hasBody r)
                  && negb (Review.state r =? "CHANGES_REQUESTED")%string)%bool = false).
    { destruct Hkeep as [-> | ->]; [reflexivity|apply andb_false_r]. }
    rewrite E, E'. eexists. split; [reflexivity|]. cbn.
    repeat split; try reflexivity; apply Hbody.
  - intros Hh Hs. rewrite Hh. apply String.eqb_neq in Hs. rewrite Hs.
    now destruct (Review.state r =? "APPROVED")%string.
Qed.
End LatestVerdict.

Section LatestVerdictClaim.
Context {host : Host}.

End LatestVerdictClaim.

(* ------------------------------------------------------------------ *)
(** ** Inline threads the PR author replied in *)

Lemma StronglySorted_filter {A : Type} (R : A -> A -> Prop) (p : A -> bool) l :
  StronglySorted R l -> StronglySorted R (filter p l).
Proof.
  induction 1 as [|x l Hs IH Hx]; simpl; [constructor|].
  destruct (p x); [|exact IH].
  constructor; [exact IH|].
  rewrite Forall_forall in *. intros y Hy. apply Hx.
  now apply filter_In in Hy.
Qed.

(** In a sorted list every element is, or is below, the last one. *)
Lemma StronglySorted_lastOf {A : Type} (R : A -> A -> Prop) l m :
  StronglySorted R l -> In m l ->
  exists r, lastOf l = Some r /\ In r l /\ (m = r \/ R m r).
Proof.
  intros Hs. revert m.
  induction Hs as [|x l Hs IH Hx]; intros m Hin; [destruct Hin|].
  destruct l as [|y l'].
  - destruct Hin as [<-|[]]. exists x. simpl. auto.
  - destruct Hin as [<-|Hin].
    + destruct (IH y (or_introl eq_refl)) as (r & Hr & Hrin & _).
      exists r. split; [exact Hr|]. split; [now right|]. right.
      rewrite Forall_forall in Hx. now apply Hx.
    + destruct (IH m Hin) as (r & Hr & Hrin & Hm).
      exists r. split; [exact Hr|]. split; [now right|exact Hm].
Qed.

Section InlineThreads.
Context {host : Host}.

(** [authorReplied] makes [authorComments] non-empty: the index
    [authorComments.length - 1] is in range. *)
Lemma authorReplied_lastOf prAuthor messages :
  existsb (byAuthor prAuthor) messages = true ->
  lastOf (filter (byAuthor prAuthor) messages) <> None.
Proof.
  intros H E. apply lastOf_None in E.
  apply existsb_exists in H as (m & Hin & Hm).
  assert (Hf : In m (filter (byAuthor prAuthor) messages))
    by (apply filter_In; now split).
  rewrite E in Hf. destruct Hf.
Qed.

Lemma candidateSet_reviewerComments prAuthor thread :
  candidateSet prAuthor thread =
  filter (isReviewerComment prAuthor) (InlineComment.comments thread).
Proof.
  unfold candidateSet. apply filter_ext. intros m. unfold isReviewerComment.
  destruct (isLikelyBot (InlineMessage.author m)); [reflexivity|].
  now destruct (InlineMessage.author m =? prAuthor)%string.
Qed.

(** In a chronological thread the PR author's last listed message
    carries the PR author's latest time. *)
Lemma lastAuthorReply_latest prAuthor thread latest :
  chronological (InlineComment.comments thread) ->
  authorLatestTime prAuthor thread latest ->
  exists lastAuthorReply,
    lastOf (filter (byAuthor prAuthor) (InlineComment.comments thread))
      = Some lastAuthorReply /\
    messageTime lastAuthorReply = Some latest.
Proof.
  intros Hc [(m & Hin & Ha & Ht) Hmax].
  assert (Hf : In m (filter (byAuthor prAuthor) (InlineComment.comments thread))).
  { apply filter_In. split; [exact Hin|]. unfold byAuthor. rewrite Ha.
    apply String.eqb_refl. }
  destruct (StronglySorted_lastOf _ _ m
              (StronglySorted_filter _ (byAuthor prAuthor) _ Hc) Hf)
    as (r & Hr & Hrin & Hle).
  exists r. split; [exact Hr|].
  destruct Hle as [<-|Hle]; [exact Ht|].
  apply filter_In in Hrin as [Hrin Hra].
  apply String.eqb_eq in Hra.
  rewrite Ht in Hle. unfold Date_le in Hle.
  destruct (messageTime r) as [tr|] eqn:Er; [|discriminate].
  apply Z.leb_le in Hle.
  specialize (Hmax r tr Hrin Hra Er). f_equal. lia.
Qed.

(** What the thread pushes, under the hypotheses of C3. *)
Lemma emitThread_after_author_reply prAuthor thread latest :
  InlineComment.isResolved thread = false ->
  InlineComment.isOutdated thread = false ->
  chronological (InlineComment.comments thread) ->
  authorLatestTime prAuthor thread latest ->
  emitThread prAuthor thread =
  match lastOf (filter (postedAfter latest) (candidateSet prAuthor thread)) with
  | None => []
  | Some c => [ inlineToNormalized thread c ]
  end.
Proof.
  intros Hres Hout Hc Hl.
  destruct (lastAuthorReply_latest prAuthor thread latest Hc Hl)
    as (r & Hr & Htr).
  assert (Hrep : existsb (byAuthor prAuthor) (InlineComment.comments thread) = true).
  { destruct Hl as [(m & Hin & Ha & _) _]. apply existsb_exists.
    exists m. split; [exact Hin|]. unfold byAuthor. rewrite Ha.
    apply String.eqb_refl. }
  assert (Hnew : filter (fun c => Date_gt (Date_parse (InlineMessage.createdAt c))
                                          (Date_parse (InlineMessage.createdAt r)))
                        (filter (isReviewerComment prAuthor)
                                (InlineComment.comments thread))
                 = filter (postedAfter latest) (candidateSet prAuthor thread)).
  { rewrite candidateSet_reviewerComments.
    apply filter_ext. intros c. unfold postedAfter.
    change (Date_parse (InlineMessage.createdAt r)) with (messageTime r).
    change (Date_parse (InlineMessage.createdAt c)) with (messageTime c).
    rewrite Htr. unfold Date_gt. now destruct (messageTime c). }
  unfold emitThread. rewrite Hres, Hout, Hrep, Hr, Hnew.
  destruct (filter (isReviewerComment prAuthor) (InlineComment.comments thread))
    as [|c cs] eqn:Erc; [|reflexivity].
  simpl in Hnew. now rewrite <- Hnew.
Qed.

(** C3. For a thread that is neither resolved nor outdated, listed in
    chronological order, in which the PR author posted and [latest] is
    the time of the PR author's latest message: the thread's candidate
    set (messages of neither a bot nor the PR author) is restricted to
    the messages timestamped strictly after [latest]. When none remains
    the thread contributes nothing: the inline normalizer returns what
    it returns for the threads before it followed by what it returns
    for the threads after it. Otherwise the thread contributes exactly
    one comment, whose body and author are those of the last remaining
    candidate in the thread's order: the inline normalizer returns it
    between what it returns for the threads before and for the threads
    after, and [normalizeAll] returns it. *)
Theorem inline_thread_after_author_reply prAuthor thread latest :
  InlineComment.isResolved thread = false ->
  InlineComment.isOutdated thread = false ->
  chronological (InlineComment.comments thread) ->
  authorLatestTime prAuthor thread latest ->
  let remaining := filter (postedAfter latest) (candidateSet prAuthor thread) in
  match lastOf remaining with
  | None =>
      emitThread prAuthor thread = [] /\
      (forall before after,
          normalizeInlineComments (before ++ thread :: after) prAuthor
          = (normalizeInlineComments before prAuthor
             ++ normalizeInlineComments after prAuthor)%list)
  | Some representative =>
      emitThread prAuthor thread = [ inlineToNormalized thread representative ] /\
      NormalizedComment.body (inlineToNormalized thread representative)
        = InlineMessage.body representative /\
      NormalizedComment.author (inlineToNormalized thread representative)
        = InlineMessage.author representative /\
      (forall before after,
          normalizeInlineComments (before ++ thread :: after) prAuthor
          = (normalizeInlineComments before prAuthor
             ++ [ inlineToNormalized thread representative ]
             ++ normalizeInlineComments after prAuthor)%list) /\
      (forall prView issueComments before after,
          PRView.author prView = prAuthor ->
          In (inlineToNormalized thread representative)
             (NormalizeResult.comments
                (normalizeAll prView issueComments (before ++ thread :: after))))
  end.
Proof.
  intros Hres Hout Hc Hl remaining.
  pose proof (emitThread_after_author_reply prAuthor thread latest Hres Hout Hc Hl)
    as He.
  fold remaining in He.
  assert (Hsplit : forall before after,
             normalizeInlineComments (before ++ thread :: after) prAuthor
             = (normalizeInlineComments before prAuthor
                ++ emitThread prAuthor thread
                ++ normalizeInlineComments after prAuthor)%list).
  { intros before after. unfold normalizeInlineComments.
    rewrite flat_map_app. reflexivity. }
  destruct (lastOf remaining) as [representative|].
  - split; [exact He|]. split; [reflexivity|]. split; [reflexivity|]. split.
    + intros before after. now rewrite Hsplit, He.
    + intros prView issueComments before after Hpr.
      apply normalizeAll_In. unfold allComments. rewrite Hpr, Hsplit, He.
      apply in_or_app. right. apply in_or_app. right.
      apply in_or_app. right. now left.
  - split; [exact He|]. intros before after. now rewrite Hsplit, He.
Qed.
End InlineThreads.

(* ------------------------------------------------------------------ *)
(** ** The bot predicate *)

Lemma endsWith_app (s suffix : string) : endsWith (s ++ suffix) suffix = true.
Proof.
  induction s as [|c s IH]; cbn [append endsWith].
  - destruct suffix; cbn [endsWith]; now rewrite String.eqb_refl.
  - rewrite IH. apply orb_true_r.
Qed.

Lemma startsWith_app (p s : string) : startsWith (p ++ s) p = true.
Proof.
  induction p as [|c p IH]; simpl; [reflexivity|].
  now rewrite Ascii.eqb_refl, IH.
Qed.

Lemma includes_app (s1 p s2 : string) : includes (s1 ++ p ++ s2) p = true.
Proof.
  induction s1 as [|c s1 IH]; cbn [append includes].
  - destruct (p ++ s2) eqn:E; cbn [includes]; rewrite <- E, startsWith_app; reflexivity.
  - rewrite IH. apply orb_true_r.
Qed.

Lemma ascii_toLowerCase_app (s t : string) :
  ascii_toLowerCase (s ++ t) = ascii_toLowerCase s ++ ascii_toLowerCase t.
Proof. induction s as [|c s IH]; simpl; [reflexivity|now rewrite IH]. Qed.

Lemma lowerAscii_idem (c : ascii) : lowerAscii (lowerAscii c) = lowerAscii c.
Proof. destruct c as [[] [] [] [] [] [] [] []]; reflexivity. Qed.

Lemma ascii_toLowerCase_idem (s : string) :
  ascii_toLowerCase (ascii_toLowerCase s) = ascii_toLowerCase s.
Proof.
  induction s as [|c s IH]; simpl; [reflexivity|].
  now rewrite lowerAscii_idem, IH.
Qed.

Lemma BOT_AUTHOR_PATTERNS_lower (p : string) :
  In p BOT_AUTHOR_PATTERNS -> ascii_toLowerCase p = p.
Proof.
  unfold BOT_AUTHOR_PATTERNS. simpl.
  intros H. repeat (destruct H as [<-|H]; [reflexivity|]). destruct H.
Qed.

Lemma isLikelyBot_iff {host : Host} (author : string) :
  isLikelyBot author = true <->
  endsWith (toLowerCase author) "bot" = true \/
  exists pattern, In pattern BOT_AUTHOR_PATTERNS /\
                  includes (toLowerCase author) pattern = true.
Proof.
  unfold isLikelyBot, endsWithBot.
  destruct (endsWith (toLowerCase author) "bot"); [intuition|].
  rewrite existsb_exists. intuition discriminate.
Qed.

(** C9. [isLikelyBot] is a function of the author identifier alone and
    reads it only through its lower-cased form: two identifiers with the
    same lower-cased form (case variants of one another) get the same
    answer. It answers [true] exactly when the lower-cased identifier
    ends with "bot" or contains one of [BOT_AUTHOR_PATTERNS], among
    which are "[bot]", "-bot" and "bot-". On the ASCII host: an
    identifier ending with the literal "bot", or containing one of the
    patterns, is a bot, and so is any identifier whose lower-cased form
    is. *)
Theorem isLikelyBot_case_insensitive_patterns :
  (forall (host : Host) (a b : string),
      toLowerCase a = toLowerCase b -> isLikelyBot a = isLikelyBot b) /\
  (forall (host : Host) (author : string),
      isLikelyBot author = true <->
      endsWith (toLowerCase author) "bot" = true \/
      exists pattern, In pattern BOT_AUTHOR_PATTERNS /\
                      includes (toLowerCase author) pattern = true) /\
  (In "[bot]" BOT_AUTHOR_PATTERNS /\ In "-bot" BOT_AUTHOR_PATTERNS /\
   In "bot-" BOT_AUTHOR_PATTERNS) /\
  (forall author : string,
      @isLikelyBot asciiHost (ascii_toLowerCase author)
      = @isLikelyBot asciiHost author) /\
  (forall s : string, @isLikelyBot asciiHost (s ++ "bot") = true) /\
  (forall s1 pattern s2 : string,
      In pattern BOT_AUTHOR_PATTERNS ->
      @isLikelyBot asciiHost (s1 ++ pattern ++ s2) = true).
Proof.
  split; [|split; [|split; [|split; [|split]]]].
  - intros host a b E. unfold isLikelyBot, endsWithBot. now rewrite E.
  - intros host author. apply isLikelyBot_iff.
  - unfold BOT_AUTHOR_PATTERNS. simpl. intuition.
  - intros author. unfold isLikelyBot, endsWithBot. simpl.
    now rewrite ascii_toLowerCase_idem.
  - intros s. apply isLikelyBot_iff. left. simpl.
    rewrite ascii_toLowerCase_app. apply endsWith_app.
  - intros s1 pattern s2 Hp. apply isLikelyBot_iff. right.
    exists pattern. split; [exact Hp|]. simpl.
    rewrite !ascii_toLowerCase_app, (BOT_AUTHOR_PATTERNS_lower pattern Hp).
    apply includes_app.
Qed.

(* ------------------------------------------------------------------ *)
(** ** More on the activity boundary *)

Lemma fold_left_flat_map {A B C : Type} (f : A -> C -> A) (g : B -> list C)
    (l : list B) (a : A) :
  fold_left f (flat_map g l) a = fold_left (fun a x => fold_left f (g x) a) l a.
Proof.
  revert a. induction l as [|x l IH]; intros a; simpl; [reflexivity|].
  now rewrite fold_left_app, IH.
Qed.

Lemma fold_left_ext_in {A B : Type} (f g : A -> B -> A) (l : list B) (a : A) :
  (forall a x, f a x = g a x) -> fold_left f l a = fold_left g l a.
Proof.
  intros H. revert a. induction l as [|x l IH]; intros a; simpl; [reflexivity|].
  now rewrite H, IH.
Qed.

Section ActivityFacts.
Context {host : Host}.

Lemma fold_issueStep_stamps prAuthor issueComments last :
  fold_left (issueStep prAuthor) issueComments last
  = fold_left trackStamp (issueStamps prAuthor issueComments) last.
Proof.
  unfold issueStamps. rewrite fold_left_flat_map.
  apply fold_left_ext_in. intros a c. unfold issueStep, trackStamp, trackActivity.
  destruct (IssueComment.user c) as [login|]; [|reflexivity].
  destruct (login =? prAuthor)%string; [|reflexivity].
  destruct (truthy (IssueComment.created_at c)) eqn:E; simpl; [|reflexivity].
  now rewrite E.
Qed.

Lemma fold_messageStep_stamps prAuthor messages last :
  fold_left (messageStep prAuthor) messages last
  = fold_left trackStamp (messageStamps prAuthor messages) last.
Proof.
  unfold messageStamps. rewrite fold_left_flat_map.
  apply fold_left_ext_in. intros a m. unfold messageStep, trackStamp, trackActivity.
  destruct (InlineMessage.author m =? prAuthor)%string; [|reflexivity].
  destruct (truthy (InlineMessage.createdAt m)) eqn:E; simpl; [|reflexivity].
  now rewrite E.
Qed.

(** The two loops of [findAuthorLastActivity] are one pass over
    [authorStamps]. *)
Lemma findAuthorLastActivity_stamps prAuthor issueComments inlineComments :
  findAuthorLastActivity prAuthor issueComments inlineComments
  = fold_left trackStamp (authorStamps prAuthor issueComments inlineComments) None.
Proof.
  unfold findAuthorLastActivity, authorStamps.
  rewrite fold_left_app, fold_left_flat_map, fold_issueStep_stamps.
  apply fold_left_ext_in. intros a thread. apply fold_messageStep_stamps.
Qed.

Lemma stamps_truthy prAuthor issueComments inlineComments s :
  In s (authorStamps prAuthor issueComments inlineComments) -> truthy s = true.
Proof.
  unfold authorStamps, issueStamps, messageStamps.
  rewrite in_app_iff, !in_flat_map. intros [(c & _ & H)|(t & _ & H)].
  - destruct (IssueComment.user c) as [login|]; [|destruct H].
    destruct (login =? prAuthor)%string; [|destruct H].
    destruct (truthy (IssueComment.created_at c)) eqn:E; [|destruct H].
    destruct H as [<-|[]]. exact E.
  - apply in_flat_map in H as (m & _ & H).
    destruct (InlineMessage.author m =? prAuthor)%string; [|destruct H].
    destruct (truthy (InlineMessage.createdAt m)) eqn:E; [|destruct H].
    destruct H as [<-|[]]. exact E.
Qed.

Lemma trackStamp_Some last stamp :
  truthy stamp = true -> trackStamp (Some last) stamp <> None.
Proof.
  intros E. unfold trackStamp, trackActivity. rewrite E. simpl.
  now destruct (Date_gt (Date_parse stamp) last).
Qed.

Lemma fold_trackStamp_invalid stamps :
  Forall (fun s => truthy s = true) stamps ->
  fold_left trackStamp stamps (Some None) = Some None.
Proof.
  induction stamps as [|s stamps IH]; intros H; [reflexivity|].
  inversion H as [|? ? Hs Hrest]; subst. cbn [fold_left].
  unfold trackStamp at 2, trackActivity. rewrite Hs. simpl.
  assert (E : Date_gt (Date_parse s) None = false)
    by (unfold Date_gt; now destruct (Date_parse s)).
  rewrite E. now apply IH.
Qed.

(** From a valid date on, the pass keeps the greatest valid date seen. *)
Lemma fold_trackStamp_valid stamps t0 :
  Forall (fun s => truthy s = true) stamps ->
  exists t, fold_left trackStamp stamps (Some (Some t0)) = Some (Some t) /\
            t0 <= t /\
            (t = t0 \/ exists s, In s stamps /\ Date_parse s = Some t) /\
            forall s t', In s stamps -> Date_parse s = Some t' -> t' <= t.
Proof.
  revert t0. induction stamps as [|s stamps IH]; intros t0 H.
  - exists t0. repeat split; [lia|now left|intros s t' []].
  - inversion H as [|? ? Hs Hrest]; subst. cbn [fold_left].
    unfold trackStamp at 2, trackActivity. rewrite Hs. simpl.
    destruct (Date_parse s) as [ts|] eqn:Es; simpl.
    + destruct (Z.ltb_spec t0 ts) as [Hlt|Hge].
      * destruct (IH ts Hrest) as (t & Hf & Hle & Hfrom & Hmax).
        exists t. split; [exact Hf|]. split; [lia|]. split.
        -- right. destruct Hfrom as [->|(s' & Hin & Hp)].
           ++ exists s. split; [now left|exact Es].
           ++ exists s'. split; [now right|exact Hp].
        -- intros s' t' [<-|Hin] Hp; [|now apply (Hmax s')].
           rewrite Es in Hp. injection Hp as <-. exact Hle.
      * destruct (IH t0 Hrest) as (t & Hf & Hle & Hfrom & Hmax).
        exists t. split; [exact Hf|]. split; [exact Hle|]. split.
        -- destruct Hfrom as [->|(s' & Hin & Hp)]; [now left|].
           right. exists s'. split; [now right|exact Hp].
        -- intros s' t' [<-|Hin] Hp; [|now apply (Hmax s')].
           rewrite Es in Hp. injection Hp as <-. lia.
    + destruct (IH t0 Hrest) as (t & Hf & Hle & Hfrom & Hmax).
      exists t. split; [exact Hf|]. split; [exact Hle|]. split.
      * destruct Hfrom as [->|(s' & Hin & Hp)]; [now left|].
        right. exists s'. split; [now right|exact Hp].
      * intros s' t' [<-|Hin] Hp; [congruence|now apply (Hmax s')].
Qed.

(** X1. [findAuthorLastActivity] returns [null] exactly when the PR
    author has neither a conversation comment nor an inline message
    with a non-empty timestamp. *)
Theorem findAuthorLastActivity_null_iff prAuthor issueComments inlineComments :
  findAuthorLastActivity prAuthor issueComments inlineComments = None
  <-> authorStamps prAuthor issueComments inlineComments = [].
Proof.
  rewrite findAuthorLastActivity_stamps.
  pose proof (stamps_truthy prAuthor issueComments inlineComments) as Ht.
  destruct (authorStamps prAuthor issueComments inlineComments) as [|s stamps];
    [now split|].
  split; [|discriminate]. intros H. exfalso. cbn [fold_left] in H.
  assert (Hs : truthy s = true) by (apply Ht; now left).
  unfold trackStamp at 2, trackActivity in H. rewrite Hs in H. simpl in H.
  assert (Hrest : Forall (fun s => truthy s = true) stamps)
    by (apply Forall_forall; intros s' Hs'; apply Ht; now right).
  destruct (Date_parse s) as [t0|].
  - destruct (fold_trackStamp_valid stamps t0 Hrest) as (t & Hf & _). congruence.
  - rewrite (fold_trackStamp_invalid stamps Hrest) in H. discriminate.
Qed.

(** X2. When the first timestamp of the PR author that
    [findAuthorLastActivity] reads is a valid date, the result is the
    latest of the PR author's valid dates: it is the date of one of the
    timestamps read, and no timestamp read has a later date. *)
Theorem findAuthorLastActivity_latest prAuthor issueComments inlineComments
    first others t0 :
  authorStamps prAuthor issueComments inlineComments = first :: others ->
  Date_parse first = Some t0 ->
  exists t,
    findAuthorLastActivity prAuthor issueComments inlineComments = Some (Some t) /\
    (exists s, In s (first :: others) /\ Date_parse s = Some t) /\
    (forall s t', In s (first :: others) -> Date_parse s = Some t' -> t' <= t).
Proof.
  intros Hst Hp. rewrite findAuthorLastActivity_stamps.
  pose proof (stamps_truthy prAuthor issueComments inlineComments) as Ht.
  rewrite Hst in *. cbn [fold_left].
  assert (Hs : truthy first = true) by (apply Ht; now left).
  unfold trackStamp at 2, trackActivity. rewrite Hs, Hp. simpl.
  assert (Hrest : Forall (fun s => truthy s = true) others)
    by (apply Forall_forall; intros s' Hs'; apply Ht; now right).
  destruct (fold_trackStamp_valid others t0 Hrest) as (t & Hf & Hle & Hfrom & Hmax).
  exists t. split; [exact Hf|]. split.
  - destruct Hfrom as [->|(s & Hin & Hps)].
    + exists first. split; [now left|exact Hp].
    + exists s. split; [now right|exact Hps].
  - intros s t' [<-|Hin] Hps; [|now apply (Hmax s)].
    rewrite Hp in Hps. injection Hps as <-. exact Hle.
Qed.

Lemma clearedByActivity_invalid stamp : clearedByActivity (Some None) stamp = false.
Proof.
  unfold clearedByActivity. destruct stamp as [s|]; [|reflexivity].
  unfold Date_le. destruct (Date_parse s); now rewrite andb_false_r.
Qed.

Lemma clearedByActivity_null stamp : clearedByActivity None stamp = false.
Proof. reflexivity. Qed.

(** X3. When the first timestamp of the PR author that
    [findAuthorLastActivity] reads is not a valid date, the boundary is
    an Invalid Date for good, and it clears nothing: [normalizeAll]
    returns what it returns for reviews and conversation comments when
    there is no boundary at all. *)
Theorem invalid_first_stamp_disables_boundary prView issueComments inlineComments
    first others :
  let prAuthor := PRView.author prView in
  authorStamps prAuthor issueComments inlineComments = first :: others ->
  Date_parse first = None ->
  findAuthorLastActivity prAuthor issueComments inlineComments = Some None /\
  NormalizeResult.comments (normalizeAll prView issueComments inlineComments)
  = Array_sort byCreatedAt
      (normalizeReviews prView None
       ++ normalizeIssueComments issueComments prAuthor None
       ++ normalizeInlineComments inlineComments prAuthor).
Proof.
  intros prAuthor Hst Hp.
  assert (Hb : findAuthorLastActivity prAuthor issueComments inlineComments = Some None).
  { rewrite findAuthorLastActivity_stamps.
    pose proof (stamps_truthy prAuthor issueComments inlineComments) as Ht.
    rewrite Hst in *. cbn [fold_left].
    assert (Hs : truthy first = true) by (apply Ht; now left).
    unfold trackStamp at 2, trackActivity. rewrite Hs, Hp. simpl.
    apply fold_trackStamp_invalid.
    apply Forall_forall. intros s' Hs'. apply Ht. now right. }
  split; [exact Hb|].
  unfold normalizeAll, allComments. cbn [NormalizeResult.comments].
  fold prAuthor. rewrite Hb. f_equal. f_equal; [|f_equal].
  - unfold normalizeReviews, latestByAuthor. f_equal.
    apply fold_left_ext_in. intros m r. unfold reviewStep.
    now rewrite clearedByActivity_invalid, clearedByActivity_null.
  - unfold normalizeIssueComments. apply flat_map_ext. intros c.
    unfold emitIssueComment.
    now rewrite clearedByActivity_invalid, clearedByActivity_null.
Qed.
End ActivityFacts.

(* ------------------------------------------------------------------ *)
(** ** More on the three normalizers *)

Lemma NoDup_map_injective {A B : Type} (f : A -> B) (l : list A) :
  (forall x y, f x = f y -> x = y) -> NoDup l -> NoDup (map f l).
Proof.
  intros Hf. induction 1 as [|x l Hx Hl IH]; simpl; constructor; [|exact IH].
  intros H. apply in_map_iff in H as (y & E & Hy). apply Hf in E. now subst.
Qed.

Lemma filter_nothing {A : Type} (p : A -> bool) (l : list A) :
  (forall x, In x l -> p x = false) -> filter p l = [].
Proof.
  induction l as [|x l IH]; intros H; [reflexivity|]. cbn [filter].
  rewrite (H x (or_introl eq_refl)). apply IH. intros y Hy. apply H. now right.
Qed.

Section StreamFacts.
Context {host : Host}.

Lemma orUndefined_idem (o : option string) (s : string) :
  orUndefined (orUndefined o) = Some s -> orUndefined o = Some s.
Proof.
  unfold orUndefined. destruct o as [x|]; [|discriminate].
  destruct (truthy x) eqn:E; [now rewrite E|discriminate].
Qed.

Lemma emitReview_shape prView a r :
  emitReview prView (a, r) = [] \/
  exists n, emitReview prView (a, r) = [ n ] /\
            NormalizedComment.id n = "review-" ++ a /\
            NormalizedComment.author n = a.
Proof.
  unfold emitReview.
  destruct ((Review.state r =? "APPROVED")%string && negb (hasBody r))%bool;
    [now left|].
  destruct (negb (hasBody r) && negb (Review.state r =? "CHANGES_REQUESTED")%string)%bool;
    [now left|].
  right. eexists. split; [reflexivity|]. now split.
Qed.

Lemma flat_map_emitReview_authors prView (m : JsMap Review.t) :
  NoDup (map fst m) ->
  NoDup (map NormalizedComment.author (flat_map (emitReview prView) m)) /\
  incl (map NormalizedComment.author (flat_map (emitReview prView) m)) (map fst m).
Proof.
  induction m as [|[a r] m IH]; intros Hnd; [split; [constructor|easy]|].
  inversion Hnd as [|? ? Ha Hnd']; subst. destruct (IH Hnd') as [IHn IHi].
  cbn [flat_map map fst].
  destruct (emitReview_shape prView a r) as [->|(n & -> & _ & Hn)]; simpl.
  - split; [exact IHn|]. now apply incl_tl.
  - rewrite Hn. split.
    + constructor; [|exact IHn]. intros H. apply Ha. now apply IHi.
    + intros x [<-|Hx]; [now left|right; now apply IHi].
Qed.

Lemma normalizeReviews_id prView ala n :
  In n (normalizeReviews prView ala) ->
  NormalizedComment.id n = "review-" ++ NormalizedComment.author n.
Proof.
  unfold normalizeReviews. intros H. apply in_flat_map in H as ([a r] & _ & H).
  destruct (emitReview_shape prView a r) as [E|(n' & E & Hid & Ha)];
    rewrite E in H; [destruct H|].
  destruct H as [<-|[]]. now rewrite Ha.
Qed.

Lemma normalizeReviews_authors_NoDup prView ala :
  NoDup (map NormalizedComment.author (normalizeReviews prView ala)).
Proof.
  exact (proj1 (flat_map_emitReview_authors prView _
                  (latestByAuthor_NoDup prView ala))).
Qed.

Lemma review_ids_NoDup (l : list NormalizedComment.t) :
  NoDup (map NormalizedComment.author l) ->
  (forall n, In n l ->
             NormalizedComment.id n = "review-" ++ NormalizedComment.author n) ->
  NoDup (map NormalizedComment.id l).
Proof.
  intros Ha Hid.
  assert (E : map NormalizedComment.id l
              = map (fun a => "review-" ++ a) (map NormalizedComment.author l)).
  { rewrite map_map. apply map_ext_in. exact Hid. }
  rewrite E. apply NoDup_map_injective; [|exact Ha].
  intros x y H. simpl in H. now injection H.
Qed.

(** X4. [normalizeReviews] returns at most one comment per author, and
    the identifiers of the comments it returns are pairwise distinct. *)
Theorem normalizeReviews_one_per_author prView ala :
  NoDup (map NormalizedComment.author (normalizeReviews prView ala)) /\
  NoDup (map NormalizedComment.id (normalizeReviews prView ala)).
Proof.
  pose proof (normalizeReviews_authors_NoDup prView ala) as Ha.
  split; [exact Ha|].
  apply review_ids_NoDup; [exact Ha|].
  intros n Hn. now apply normalizeReviews_id in Hn.
Qed.

Lemma hasBody_true review :
  hasBody review = true <->
  exists b, Review.body review = Some b /\ b <> "" /\ trim b <> "".
Proof.
  unfold hasBody, truthy. destruct (Review.body review) as [b|].
  - split.
    + intros H. apply andb_true_iff in H as [H1 H2].
      apply negb_true_iff in H1, H2. apply String.eqb_neq in H1, H2.
      exists b. auto.
    + intros (b' & E & H1 & H2). injection E as <-.
      apply String.eqb_neq in H1, H2. now rewrite H1, H2.
  - split; [discriminate|]. intros (b & H & _). discriminate.
Qed.

(** What a returned review comment carries. *)
Lemma normalizeReviews_carries prView ala :
  Forall (fun n =>
    exists review,
      In review (PRView.reviews prView) /\
      Review.author review = Some (NormalizedComment.author n) /\
      NormalizedComment.state n = Some (Review.state review) /\
      NormalizedComment.createdAt n = orUndefined (Review.submittedAt review) /\
      (Review.state review <> "CHANGES_REQUESTED" ->
         Review.body review = Some (NormalizedComment.body n) /\
         trim (NormalizedComment.body n) <> "") /\
      (Review.state review = "CHANGES_REQUESTED" ->
         (Review.body review = Some (NormalizedComment.body n) /\
          NormalizedComment.body n <> "") \/
         ((Review.body review = None \/ Review.body review = Some "") /\
          NormalizedComment.body n = "[CHANGES_REQUESTED]")))
    (normalizeReviews prView ala).
Proof.
  apply Forall_forall. intros n H. unfold normalizeReviews in H.
  apply in_flat_map in H as ([a r] & Hm & He).
  apply latestByAuthor_entries in Hm as (Hin & Hauthor & _).
  apply emitReview_In in He as (_ & Ha & Hb & Hc & Hs & _ & Hkeep).
  exists r. rewrite Ha. repeat split; try assumption.
  - destruct Hkeep as [Hh|Hcr]; [|contradiction].
    apply hasBody_true in Hh as (b & Eb & Hne & _).
    rewrite Hb. unfold reviewBodyText, truthy. rewrite Eb.
    now destruct (String.eqb_spec b "").
  - destruct Hkeep as [Hh|Hcr]; [|contradiction].
    apply hasBody_true in Hh as (b & Eb & Hne & Ht).
    rewrite Hb. unfold reviewBodyText, truthy. rewrite Eb.
    now destruct (String.eqb_spec b "").
  - intros Hcr. rewrite Hb. unfold reviewBodyText, truthy. rewrite Hcr.
    destruct (Review.body r) as [b|]; [|right; split; [now left|reflexivity]].
    destruct (String.eqb_spec b "") as [->|Hne]; simpl.
    + right. split; [now right|reflexivity].
    + left. now split.
Qed.

(** X5. What a returned review comment carries, and which verdicts are
    returned. Every comment returned comes from a verdict of the PR
    filed under its author; a verdict in another state than
    CHANGES_REQUESTED is returned only with a body that is not blank,
    and a CHANGES_REQUESTED verdict with the placeholder
    "[CHANGES_REQUESTED]" when the body is missing or empty and with
    the body as it is (blank or not) otherwise. Conversely, for the
    verdict kept for an author (the author's only surviving verdict, in
    particular): a CHANGES_REQUESTED verdict is returned whatever its
    body, a verdict in another state is returned when its body is not
    blank and is not returned when it is. *)
Theorem normalizeReviews_content prView ala :
  Forall (fun n =>
    exists review,
      In review (PRView.reviews prView) /\
      Review.author review = Some (NormalizedComment.author n) /\
      NormalizedComment.state n = Some (Review.state review) /\
      NormalizedComment.createdAt n = orUndefined (Review.submittedAt review) /\
      (Review.state review <> "CHANGES_REQUESTED" ->
         Review.body review = Some (NormalizedComment.body n) /\
         trim (NormalizedComment.body n) <> "") /\
      (Review.state review = "CHANGES_REQUESTED" ->
         (Review.body review = Some (NormalizedComment.body n) /\
          NormalizedComment.body n <> "") \/
         ((Review.body review = None \/ Review.body review = Some "") /\
          NormalizedComment.body n = "[CHANGES_REQUESTED]")))
    (normalizeReviews prView ala) /\
  (forall author review,
      survivingVerdicts prView ala author = [ review ] ->
      Map_get author (latestByAuthor prView ala) = Some review) /\
  (forall author kept,
      Map_get author (latestByAuthor prView ala) = Some kept ->
      let ofAuthor := fun n => (NormalizedComment.author n =? author)%string in
      (Review.state kept = "CHANGES_REQUESTED" ->
       exists n,
         filter ofAuthor (normalizeReviews prView ala) = [ n ] /\
         NormalizedComment.author n = author /\
         NormalizedComment.state n = Some "CHANGES_REQUESTED" /\
         (forall b, Review.body kept = Some b -> b <> "" ->
                    NormalizedComment.body n = b) /\
         (Review.body kept = None \/ Review.body kept = Some "" ->
          NormalizedComment.body n = "[CHANGES_REQUESTED]")) /\
      (Review.state kept <> "CHANGES_REQUESTED" -> hasBody kept = true ->
       exists n,
         filter ofAuthor (normalizeReviews prView ala) = [ n ] /\
         NormalizedComment.author n = author /\
         NormalizedComment.state n = Some (Review.state kept) /\
         Review.body kept = Some (NormalizedComment.body n)) /\
      (Review.state kept <> "CHANGES_REQUESTED" -> hasBody kept = false ->
       filter ofAuthor (normalizeReviews prView ala) = [])).
Proof.
  split; [apply normalizeReviews_carries|]. split.
  - intros author review Hs.
    pose proof (fold_reviewStep_get prView ala author (PRView.reviews prView) [])
      as Hget.
    fold (latestByAuthor prView ala) in Hget.
    fold (survivingVerdicts prView ala author) in Hget.
    now rewrite Hs in Hget.
  - intros author kept Hget ofAuthor.
    pose proof (flat_map_emitReview_author prView (latestByAuthor prView ala)
                  author (latestByAuthor_NoDup prView ala)) as Hemit.
    fold (normalizeReviews prView ala) in Hemit. fold ofAuthor in Hemit.
    rewrite Hget in Hemit. rewrite Hemit.
    destruct (emitReview_exact prView author kept) as [Hpush Hskip].
    split; [|split].
    + intros Hcr.
      destruct (Hpush (or_intror Hcr)) as (n & En & _ & Ha & Hst & _ & Hb & Hp).
      exists n. rewrite Hcr in Hst, Hp. now repeat split.
    + intros Hcr Hh.
      destruct (Hpush (or_introl Hh)) as (n & En & _ & Ha & Hst & _ & Hb & _).
      exists n. repeat split; try assumption.
      apply hasBody_true in Hh as (b & Eb & Hne & _).
      now rewrite (Hb b Eb Hne).
    + intros Hcr Hh. now apply Hskip.
Qed.

(** X6. With the PR author's last activity at the date [boundary], no
    review summary and no conversation comment that [normalizeAll]
    returns carries a valid timestamp at or before [boundary]. *)
Theorem returned_after_boundary prView issueComments inlineComments boundary :
  findAuthorLastActivity (PRView.author prView) issueComments inlineComments
    = Some (Some boundary) ->
  Forall (fun n =>
            NormalizedComment.kind n <> inline_comment ->
            forall s t, timestampOf n = Some s -> Date_parse s = Some t ->
                        boundary < t)
    (NormalizeResult.comments (normalizeAll prView issueComments inlineComments)).
Proof.
  intros Hb. apply Forall_forall. intros n H Hk s t Hs Hp.
  apply normalizeAll_In in H. apply allComments_In in H. simpl in H.
  rewrite Hb in H. unfold timestampOf in Hs.
  assert (Hcleared : forall stamp,
            orUndefined stamp = Some s ->
            clearedByActivity (Some (Some boundary)) stamp = false ->
            boundary < t).
  { intros stamp Es Hc. unfold orUndefined in Es.
    destruct stamp as [s'|]; [|discriminate].
    destruct (truthy s') eqn:Et; [|discriminate]. injection Es as ->.
    simpl in Hc. rewrite Et, Hp in Hc. simpl in Hc. now apply Z.leb_gt in Hc. }
  destruct H as [(a & r & Hm & He)|[(c & _ & He)|(th & _ & He)]].
  - apply latestByAuthor_entries in Hm as (_ & _ & _ & _ & Hc).
    apply emitReview_In in He as (_ & _ & _ & Hcr & _).
    rewrite Hcr in Hs. apply orUndefined_idem in Hs. now apply (Hcleared _ Hs).
  - apply emitIssueComment_In in He as (a & _ & -> & _ & _ & _ & Hc).
    now apply (Hcleared _ Hs).
  - apply emitThread_In in He as (_ & _ & m & _ & _ & ->). now elim Hk.
Qed.

(** X7. The boundary acts on the conversation comments as a filter on
    what is returned without it: [normalizeIssueComments] with a
    boundary returns, in the same order, the comments it returns with
    no boundary whose timestamp the boundary does not clear. *)
Theorem normalizeIssueComments_boundary_filter comments prAuthor ala :
  normalizeIssueComments comments prAuthor ala
  = filter (fun n => negb (clearedByActivity ala (NormalizedComment.createdAt n)))
           (normalizeIssueComments comments prAuthor None).
Proof.
  unfold normalizeIssueComments.
  induction comments as [|c cs IH]; [reflexivity|].
  cbn [flat_map]. rewrite filter_app, <- IH. f_equal.
  unfold emitIssueComment.
  destruct (IssueComment.user c) as [author|]; [|reflexivity].
  destruct (trim (issueBody c) =? "")%string; [reflexivity|].
  destruct (isLikelyBot author); [reflexivity|].
  destruct (author =? prAuthor)%string; [reflexivity|].
  rewrite clearedByActivity_null. cbn [filter issueToNormalized NormalizedComment.createdAt].
  now destruct (clearedByActivity ala (Some (IssueComment.created_at c))).
Qed.

(** X18. A verdict without a (valid) timestamp is never cleared by the
    PR author's activity, and when it is the first verdict the PR lists
    for its author it is the one kept, whatever that author submitted
    afterwards: the comments returned for that author are those of this
    verdict. *)
Theorem undated_first_verdict_kept prView ala author before review after :
  PRView.reviews prView = (before ++ review :: after)%list ->
  (forall r, In r before -> Review.author r <> Some author) ->
  Review.author review = Some author ->
  isLikelyBot author = false ->
  author <> PRView.author prView ->
  verdictTime review = None ->
  Map_get author (latestByAuthor prView ala) = Some review /\
  filter (fun n => (NormalizedComment.author n =? author)%string)
         (normalizeReviews prView ala)
  = emitReview prView (author, review).
Proof.
  intros Hrs Hbefore Ha Hbot Hne Htime.
  assert (Hc : clearedByActivity ala (Review.submittedAt review) = false).
  { unfold verdictTime in Htime. unfold clearedByActivity.
    destruct ala as [last|]; [|reflexivity].
    destruct (Review.submittedAt review) as [s|]; [|reflexivity].
    destruct (truthy s); [|reflexivity]. rewrite Htime. reflexivity. }
  pose proof (fold_reviewStep_get prView ala author (PRView.reviews prView) [])
    as Hget.
  fold (latestByAuthor prView ala) in Hget.
  rewrite Hrs, filter_app in Hget. cbn [filter] in Hget.
  rewrite Ha, String.eqb_refl, Hbot, Hc in Hget.
  assert (Hp : (author =? PRView.author prView)%string = false)
    by now apply String.eqb_neq.
  rewrite Hp in Hget. cbn [andb negb] in Hget.
  rewrite filter_nothing in Hget.
  2:{ intros r Hr. destruct (Review.author r) as [login|] eqn:E; [|reflexivity].
      destruct (String.eqb_spec login author) as [->|]; [|reflexivity].
      now elim (Hbefore r Hr). }
  cbn [app fold_left Map_get pickLatest] in Hget.
  match type of Hget with
  | _ = fold_left pickLatest ?rest (Some review) =>
      destruct (fold_pickLatest review rest) as (kept & Hk & _ & Hnone & _)
  end.
  rewrite Hk, (Hnone Htime) in Hget. split; [exact Hget|].
  pose proof (flat_map_emitReview_author prView (latestByAuthor prView ala)
                author (latestByAuthor_NoDup prView ala)) as Hemit.
  fold (normalizeReviews prView ala) in Hemit. now rewrite Hget in Hemit.
Qed.
End StreamFacts.

(* ------------------------------------------------------------------ *)
(** ** More on inline threads, sizes and identifiers *)


Lemma lastOf_snoc {A : Type} (l : list A) (x : A) : lastOf (l ++ [x])%list = Some x.
Proof.
  induction l as [|y l IH]; [reflexivity|].
  cbn [app lastOf]. destruct (l ++ [x])%list eqn:E; [now destruct l|exact IH].
Qed.

Lemma Number_toString_inj (a b : Z) :
  Number_toString a = Number_toString b -> a = b.
Proof.
  unfold Number_toString. intros H. apply DecimalZ.to_int_inj.
  assert (Hn : forall z, Z.to_int z <> Decimal.Pos Decimal.Nil
                         /\ Z.to_int z <> Decimal.Neg Decimal.Nil).
  { intros [|p|p]; simpl; split; try discriminate;
      intros E; injection E as E;
      now apply DecimalPos.Unsigned.to_uint_nonnil in E. }
  pose proof (NilZero.isi (Z.to_int a) (proj1 (Hn a)) (proj2 (Hn a))) as Ha.
  pose proof (NilZero.isi (Z.to_int b) (proj1 (Hn b)) (proj2 (Hn b))) as Hb.
  rewrite H in Ha. congruence.
Qed.

Section InlineFacts.
Context {host : Host}.

Lemma emitThread_shape prAuthor thread :
  emitThread prAuthor thread = [] \/
  exists m, In m (InlineComment.comments thread) /\
            emitThread prAuthor thread = [ inlineToNormalized thread m ].
Proof.
  unfold emitThread.
  destruct (InlineComment.isResolved thread); [now left|].
  destruct (InlineComment.isOutdated thread); [now left|].
  set (rc := filter (isReviewerComment prAuthor) (InlineComment.comments thread)).
  assert (Hrc : forall l m, incl l rc -> lastOf l = Some m ->
                            In m (InlineComment.comments thread)).
  { intros l m Hl E. apply lastOf_In, Hl in E. unfold rc in E.
    now apply filter_In in E. }
  destruct (List.length rc =? 0)%nat; [now left|].
  destruct (existsb (byAuthor prAuthor) (InlineComment.comments thread)).
  - destruct (lastOf (filter (byAuthor prAuthor) (InlineComment.comments thread)));
      [|now left].
    match goal with |- context [lastOf (filter ?p rc)] =>
      destruct (lastOf (filter p rc)) as [m|] eqn:E; [|now left];
      apply (Hrc (filter p rc)) in E; [|apply incl_filter] end.
    right. now exists m.
  - destruct (lastOf rc) as [m|] eqn:E; [|now left].
    apply (Hrc rc) in E; [|apply incl_refl]. right. now exists m.
Qed.

Lemma emitThread_no_reply prAuthor thread :
  InlineComment.isResolved thread = false ->
  InlineComment.isOutdated thread = false ->
  existsb (byAuthor prAuthor) (InlineComment.comments thread) = false ->
  emitThread prAuthor thread =
  match lastOf (filter (isReviewerComment prAuthor) (InlineComment.comments thread)) with
  | None => []
  | Some latestComment => [ inlineToNormalized thread latestComment ]
  end.
Proof.
  intros Hres Hout Hrep. unfold emitThread. rewrite Hres, Hout, Hrep.
  destruct (filter (isReviewerComment prAuthor) (InlineComment.comments thread));
    reflexivity.
Qed.


End InlineFacts.

Lemma length_flat_map_le {A B : Type} (f : A -> list B) (l : list A) :
  (forall x, (List.length (f x) <= 1)%nat) ->
  (List.length (flat_map f l) <= List.length l)%nat.
Proof.
  intros H. induction l as [|x l IH]; simpl; [lia|].
  rewrite length_app. specialize (H x). lia.
Qed.

Lemma Map_set_length {V : Type} (m : JsMap V) (k : string) (v : V) :
  (List.length (Map_set k v m) <= S (List.length m))%nat.
Proof.
  induction m as [|[k0 v0] m IH]; simpl; [lia|].
  destruct (k0 =? k)%string; simpl; lia.
Qed.

Section SizeFacts.
Context {host : Host}.

Lemma latestByAuthor_length prView ala :
  (List.length (latestByAuthor prView ala) <= List.length (PRView.reviews prView))%nat.
Proof.
  unfold latestByAuthor.
  assert (H : forall rs m,
             (List.length (fold_left (reviewStep prView ala) rs m)
              <= List.length m + List.length rs)%nat).
  { induction rs as [|r rs IH]; intros m; simpl; [lia|].
    specialize (IH (reviewStep prView ala m r)).
    assert (Hs : (List.length (reviewStep prView ala m r) <= S (List.length m))%nat).
    { unfold reviewStep.
      pose proof (Map_set_length m) as Hset.
      destruct (Review.author r) as [a|]; [|lia].
      destruct (isLikelyBot a); [lia|].
      destruct (a =? PRView.author prView)%string; [lia|].
      destruct (clearedByActivity ala (Review.submittedAt r)); [lia|].
      destruct (Map_get a m) as [e|]; [|apply Hset].
      destruct (submittedLater r e); [apply Hset|lia]. }
    lia. }
  specialize (H (PRView.reviews prView) []). simpl in H. exact H.
Qed.

Lemma emitReview_length prView entry : (List.length (emitReview prView entry) <= 1)%nat.
Proof.
  destruct entry as [a r].
  destruct (emitReview_shape prView a r) as [->|(n & -> & _)]; simpl; lia.
Qed.

Lemma emitIssueComment_length prAuthor ala c :
  (List.length (emitIssueComment prAuthor ala c) <= 1)%nat.
Proof.
  unfold emitIssueComment.
  destruct (IssueComment.user c) as [a|]; [|simpl; lia].
  destruct (trim (issueBody c) =? "")%string; [simpl; lia|].
  destruct (isLikelyBot a); [simpl; lia|].
  destruct (a =? prAuthor)%string; [simpl; lia|].
  destruct (clearedByActivity ala _); simpl; lia.
Qed.

Lemma emitThread_length prAuthor thread :
  (List.length (emitThread prAuthor thread) <= 1)%nat.
Proof.
  destruct (emitThread_shape prAuthor thread) as [->|(m & _ & ->)]; simpl; lia.
Qed.

(** X10. Sizes: the inline normalizer returns at most one comment per
    thread, the conversation normalizer at most one per conversation
    comment, the review normalizer at most one per verdict, and
    [normalizeAll] never returns more comments than it was given
    verdicts, conversation comments and threads. *)
Theorem normalizeAll_size prView issueComments inlineComments :
  let prAuthor := PRView.author prView in
  let ala := findAuthorLastActivity prAuthor issueComments inlineComments in
  (List.length (normalizeInlineComments inlineComments prAuthor)
   <= List.length inlineComments)%nat /\
  (List.length (normalizeIssueComments issueComments prAuthor ala)
   <= List.length issueComments)%nat /\
  (List.length (normalizeReviews prView ala)
   <= List.length (PRView.reviews prView))%nat /\
  (List.length (NormalizeResult.comments
                  (normalizeAll prView issueComments inlineComments))
   <= List.length (PRView.reviews prView) + List.length issueComments
      + List.length inlineComments)%nat.
Proof.
  intros prAuthor ala.
  assert (Hi : (List.length (normalizeInlineComments inlineComments prAuthor)
                <= List.length inlineComments)%nat)
    by (apply length_flat_map_le, emitThread_length).
  assert (Hc : (List.length (normalizeIssueComments issueComments prAuthor ala)
                <= List.length issueComments)%nat)
    by (apply length_flat_map_le, emitIssueComment_length).
  assert (Hr : (List.length (normalizeReviews prView ala)
                <= List.length (PRView.reviews prView))%nat).
  { unfold normalizeReviews.
    pose proof (length_flat_map_le (emitReview prView) (latestByAuthor prView ala)
                  (emitReview_length prView)).
    pose proof (latestByAuthor_length prView ala). lia. }
  repeat split; try assumption.
  unfold normalizeAll. cbn [NormalizeResult.comments].
  rewrite (Permutation_length (Array_sort_perm byCreatedAt _)).
  unfold allComments. fold prAuthor. fold ala. rewrite !length_app. lia.
Qed.

Lemma normalizeIssueComments_ids comments prAuthor ala :
  NoDup (map IssueComment.id comments) ->
  NoDup (map NormalizedComment.id (normalizeIssueComments comments prAuthor ala)) /\
  forall x, In x (map NormalizedComment.id
                    (normalizeIssueComments comments prAuthor ala)) ->
            exists c, In c comments /\
                      x = "comment-" ++ Number_toString (IssueComment.id c).
Proof.
  unfold normalizeIssueComments.
  induction comments as [|c cs IH]; intros Hnd; [split; [constructor|intros x []]|].
  inversion Hnd as [|? ? Hc Hnd']; subst. destruct (IH Hnd') as [IHn IHf].
  cbn [flat_map].
  assert (Hshape : emitIssueComment prAuthor ala c = [] \/
                   exists a, emitIssueComment prAuthor ala c = [ issueToNormalized a c ]).
  { unfold emitIssueComment.
    destruct (IssueComment.user c) as [a|]; [|now left].
    destruct (trim (issueBody c) =? "")%string; [now left|].
    destruct (isLikelyBot a); [now left|].
    destruct (a =? prAuthor)%string; [now left|].
    destruct (clearedByActivity ala _); [now left|right; now exists a]. }
  destruct Hshape as [->|(a & ->)]; simpl.
  - split; [exact IHn|]. intros x Hx. destruct (IHf x Hx) as (c' & Hin & E).
    exists c'. split; [now right|exact E].
  - split.
    + constructor; [|exact IHn]. intros H. destruct (IHf _ H) as (c' & Hin & E).
      simpl in E. injection E as E. apply Number_toString_inj in E.
      apply Hc. rewrite E. now apply in_map.
    + intros x [<-|Hx]; [exists c; split; [now left|reflexivity]|].
      destruct (IHf x Hx) as (c' & Hin & E). exists c'. split; [now right|exact E].
Qed.

Lemma normalizeInlineComments_ids threads prAuthor :
  NoDup (flat_map (fun t => map InlineMessage.id (InlineComment.comments t)) threads) ->
  NoDup (map NormalizedComment.id (normalizeInlineComments threads prAuthor)) /\
  forall x, In x (map NormalizedComment.id (normalizeInlineComments threads prAuthor)) ->
            exists i, In i (flat_map (fun t => map InlineMessage.id
                                                   (InlineComment.comments t)) threads) /\
                      x = "inline-" ++ i.
Proof.
  unfold normalizeInlineComments.
  induction threads as [|t ts IH]; intros Hnd; [split; [constructor|intros x []]|].
  cbn [flat_map] in *.
  pose proof (NoDup_app_remove_l _ _ Hnd) as Hnd'. destruct (IH Hnd') as [IHn IHf].
  destruct (emitThread_shape prAuthor t) as [->|(m & Hm & ->)]; simpl.
  - split; [exact IHn|]. intros x Hx. destruct (IHf x Hx) as (i & Hin & E).
    exists i. split; [apply in_or_app; now right|exact E].
  - split.
    + constructor; [|exact IHn]. intros H. destruct (IHf _ H) as (i & Hin & E).
      simpl in E. injection E as E.
      assert (Hl : In (InlineMessage.id m)
                      (map InlineMessage.id (InlineComment.comments t)))
        by now apply in_map.
      rewrite E in Hl. clear - Hnd Hl Hin.
      induction (map InlineMessage.id (InlineComment.comments t)) as [|y l IHl];
        [destruct Hl|].
      simpl in Hnd. apply NoDup_cons_iff in Hnd as [Hy Hnd].
      destruct Hl as [->|Hl]; [apply Hy, in_or_app; now right|now apply IHl].
    + intros x [<-|Hx].
      * exists (InlineMessage.id m). split; [|reflexivity].
        apply in_or_app. left. now apply in_map.
      * destruct (IHf x Hx) as (i & Hin & E).
        exists i. split; [apply in_or_app; now right|exact E].
Qed.

(** X11. Identifiers: when the conversation comments have pairwise
    distinct ids and the inline messages have pairwise distinct ids, the
    comments [normalizeAll] returns have pairwise distinct identifiers;
    a review, a conversation comment and an inline message never share
    one, whatever their underlying ids. *)
Theorem normalizeAll_ids_distinct prView issueComments inlineComments :
  NoDup (map IssueComment.id issueComments) ->
  NoDup (flat_map (fun t => map InlineMessage.id (InlineComment.comments t))
                  inlineComments) ->
  NoDup (map NormalizedComment.id
             (NormalizeResult.comments
                (normalizeAll prView issueComments inlineComments))).
Proof.
  intros Hc Hi.
  set (prAuthor := PRView.author prView).
  set (ala := findAuthorLastActivity prAuthor issueComments inlineComments).
  apply (Permutation_NoDup
           (l := map NormalizedComment.id (allComments prView issueComments inlineComments))).
  { apply Permutation_map. symmetry. apply Array_sort_perm. }
  unfold allComments. fold prAuthor. fold ala. rewrite !map_app.
  destruct (normalizeIssueComments_ids issueComments prAuthor ala Hc) as [Hcn Hcf].
  destruct (normalizeInlineComments_ids inlineComments prAuthor Hi) as [Hin Hif].
  assert (Hrn : NoDup (map NormalizedComment.id (normalizeReviews prView ala))).
  { apply review_ids_NoDup; [apply normalizeReviews_authors_NoDup|].
    intros n Hn. now apply normalizeReviews_id in Hn. }
  assert (Hrf : forall x, In x (map NormalizedComment.id (normalizeReviews prView ala)) ->
                          exists a, x = "review-" ++ a).
  { intros x Hx. apply in_map_iff in Hx as (n & <- & Hn).
    apply normalizeReviews_id in Hn. eauto. }
  apply NoDup_app; [exact Hrn| |].
  - apply NoDup_app; [exact Hcn|exact Hin|].
    intros x Hx Hx'. destruct (Hcf x Hx) as (c & _ & ->).
    destruct (Hif _ Hx') as (i & _ & E). discriminate E.
  - intros x Hx Hx'. destruct (Hrf x Hx) as (a & ->).
    apply in_app_or in Hx' as [Hx'|Hx'].
    + destruct (Hcf _ Hx') as (c & _ & E). discriminate E.
    + destruct (Hif _ Hx') as (i & _ & E). discriminate E.
Qed.
End SizeFacts.

Lemma Permutation_filter {A : Type} (p : A -> bool) (l l' : list A) :
  Permutation l l' -> Permutation (filter p l) (filter p l').
Proof.
  induction 1 as [|x l l' H IH|x y l|l l' l'' H1 IH1 H2 IH2]; simpl.
  - constructor.
  - destruct (p x); [now constructor|exact IH].
  - destruct (p x), (p y); try reflexivity. apply perm_swap.
  - now transitivity (filter p l').
Qed.

Lemma filter_everything {A : Type} (p : A -> bool) (l : list A) :
  (forall x, In x l -> p x = true) -> filter p l = l.
Proof.
  induction l as [|x l IH]; intros H; [reflexivity|]. cbn [filter].
  rewrite (H x (or_introl eq_refl)). f_equal. apply IH. intros y Hy. apply H.
  now right.
Qed.

Section InlineIndependence.
Context {host : Host}.

(** X17. The inline comments [normalizeAll] returns are those of
    [normalizeInlineComments] on the threads, no more and no fewer,
    whatever the verdicts and the conversation comments are: the PR
    author's activity elsewhere never clears an inline thread. *)
Theorem inline_comments_ignore_boundary prView issueComments inlineComments :
  Permutation
    (filter isInline
       (NormalizeResult.comments (normalizeAll prView issueComments inlineComments)))
    (normalizeInlineComments inlineComments (PRView.author prView)).
Proof.
  unfold normalizeAll. cbn [NormalizeResult.comments].
  rewrite (Permutation_filter isInline _ _ (Array_sort_perm byCreatedAt _)).
  unfold allComments. rewrite !filter_app.
  set (prAuthor := PRView.author prView).
  set (ala := findAuthorLastActivity prAuthor issueComments inlineComments).
  assert (Hr : filter isInline (normalizeReviews prView ala) = []).
  { apply filter_nothing. intros n Hn. unfold normalizeReviews in Hn.
    apply in_flat_map in Hn as ([a r] & _ & He).
    apply emitReview_In in He as (Hk & _). unfold isInline. now rewrite Hk. }
  assert (Hc : filter isInline (normalizeIssueComments issueComments prAuthor ala) = []).
  { apply filter_nothing. intros n Hn. unfold normalizeIssueComments in Hn.
    apply in_flat_map in Hn as (c & _ & He).
    apply emitIssueComment_In in He as (a & _ & -> & _). reflexivity. }
  assert (Hi : filter isInline (normalizeInlineComments inlineComments prAuthor)
               = normalizeInlineComments inlineComments prAuthor).
  { apply filter_everything. intros n Hn. unfold normalizeInlineComments in Hn.
    apply in_flat_map in Hn as (t & _ & He).
    apply emitThread_In in He as (_ & _ & m & _ & _ & ->). reflexivity. }
  rewrite Hr, Hc, Hi. reflexivity.
Qed.
End InlineIndependence.

Section Resort.
Context {A : Type} (comparefn : A -> A -> option Z).
Variables (valid : A -> Prop) (key : A -> Z).
Hypothesis comparefn_key :
  forall x y, valid x -> valid y -> comparefn x y = Some (key x - key y).

(** Sorting a sorted array leaves it as it is. *)
Lemma Array_sort_sorted_id l :
  Forall valid l -> StronglySorted (fun x y => key x <= key y) l ->
  Array_sort comparefn l = l.
Proof.
  intros Hv Hs. induction Hs as [|x l Hs IH Hx]; [reflexivity|].
  inversion Hv as [|? ? Hvx Hvl]; subst. cbn [Array_sort fold_right].
  change (fold_right (sortInsert comparefn) [] l) with (Array_sort comparefn l).
  rewrite (IH Hvl). destruct l as [|y l']; [reflexivity|].
  cbn [sortInsert]. inversion Hvl; subst.
  rewrite (sortLe_key comparefn valid key comparefn_key x y) by assumption.
  inversion Hx; subst.
  destruct (Z.leb_spec (key x) (key y)); [reflexivity|lia].
Qed.
End Resort.

Section ResortResult.
Context {host : Host}.

(** X12. Sorting again what [normalizeAll] returned changes nothing,
    when the timestamps of the returned comments are valid dates: a
    consumer that re-sorts with the same comparator keeps the order. *)
Theorem normalizeAll_sort_again prView issueComments inlineComments :
  let returned := NormalizeResult.comments
                    (normalizeAll prView issueComments inlineComments) in
  Forall validTimestamp returned ->
  Array_sort byCreatedAt returned = returned.
Proof.
  intros returned Hv.
  apply (Array_sort_sorted_id byCreatedAt validTimestamp timeOrEpoch
           byCreatedAt_timeOrEpoch); [exact Hv|].
  unfold returned, normalizeAll. cbn [NormalizeResult.comments].
  apply (Array_sort_sorted byCreatedAt validTimestamp timeOrEpoch
           byCreatedAt_timeOrEpoch).
  unfold returned, normalizeAll in Hv. cbn [NormalizeResult.comments] in Hv.
  rewrite Forall_forall in *. intros n Hn. apply Hv.
  now apply Array_sort_In.
Qed.
End ResortResult.

(* ------------------------------------------------------------------ *)
(** ** [gh.ts]: paginated output *)

Lemma length_append (a b : string) :
  String.length (a ++ b) = (String.length a + String.length b)%nat.
Proof. induction a as [|c a IH]; simpl; [reflexivity|now rewrite IH]. Qed.

Lemma append_assoc (a b c : string) : (a ++ b) ++ c = a ++ b ++ c.
Proof. induction a as [|x a IH]; simpl; [reflexivity|now rewrite IH]. Qed.

Lemma append_nil_r (a : string) : a ++ "" = a.
Proof. induction a as [|x a IH]; simpl; [reflexivity|now rewrite IH]. Qed.

Lemma get_append_right (a b : string) (n : nat) :
  get (String.length a + n) (a ++ b) = get n b.
Proof. induction a as [|c a IH]; simpl; [reflexivity|exact IH]. Qed.

Lemma substring_append_right (a b : string) (n m : nat) :
  substring (String.length a + n) m (a ++ b) = substring n m b.
Proof. induction a as [|c a IH]; simpl; [reflexivity|exact IH]. Qed.

Lemma substring_append_left (a b : string) :
  substring 0 (String.length a) (a ++ b) = a.
Proof.
  induction a as [|c a IH]; simpl; [now destruct b|now rewrite IH].
Qed.

Section PaginatedJsonFacts.
Context {host : Host}.
Variable Json : Type.
Variable JSON_parse : string -> option Json.
Variable asArray : Json -> option (list Json).

Abbreviation step := (scanStep Json JSON_parse asArray).
Abbreviation items := (chunkItems Json JSON_parse asArray).

(** Reading the rest [todo] of a page, of which [done] is already read,
    ends the page: its items are pushed and the next page starts after
    it. *)
Lemma scan_page todo :
  forall done d pre post R trimmed,
    trimmed = pre ++ done ++ todo ++ post ->
    closesAtEnd d todo = true ->
    fold_left (step trimmed)
      (seq (String.length pre + String.length done) (String.length todo))
      {| depth := d; start := String.length pre; results := R |}
    = {| depth := 0;
         start := (String.length pre + String.length done + String.length todo)%nat;
         results := (R ++ items (done ++ todo))%list |}.
Proof.
  induction todo as [|c rest IH]; intros done d pre post R trimmed Ht Hc;
    [discriminate|].
  cbn [String.length seq fold_left].
  assert (Hget : forall x, charAt_is trimmed (String.length pre + String.length done) x
                           = Ascii.eqb c x).
  { intros x. unfold charAt_is.
    rewrite Ht, get_append_right.
    rewrite <- (Nat.add_0_r (String.length done)), get_append_right. reflexivity. }
  assert (Hnext : trimmed = pre ++ (done ++ String c "") ++ rest ++ post).
  { rewrite Ht. f_equal. rewrite append_assoc. reflexivity. }
  assert (Hlen : S (String.length pre + String.length done)
                 = (String.length pre + String.length (done ++ String c ""))%nat).
  { rewrite length_append. simpl. lia. }
  assert (Hdone : (done ++ String c "") ++ rest = done ++ String c rest).
  { rewrite append_assoc. reflexivity. }
  unfold scanStep at 2. rewrite !Hget. cbn [depth start results].
  cbn [closesAtEnd] in Hc.
  destruct (Ascii.eqb c "]") eqn:Eclose.
  - destruct (Ascii.eqb c "[") eqn:Eopen.
    { apply Ascii.eqb_eq in Eclose, Eopen. congruence. }
    destruct (d - 1 =? 0) eqn:Ez.
    + apply String.eqb_eq in Hc. subst rest. cbn [String.length seq fold_left].
      f_equal; [lia|].
      assert (Hchunk : substring (String.length pre)
                         (String.length pre + String.length done + 1
                          - String.length pre) trimmed
                       = done ++ String c "").
      { rewrite Ht.
        rewrite <- (Nat.add_0_r (String.length pre)) at 1.
        rewrite substring_append_right.
        replace (String.length pre + String.length done + 1 - String.length pre)%nat
          with (String.length (done ++ String c "")) by (rewrite length_append; simpl; lia).
        rewrite <- append_assoc. apply substring_append_left. }
      rewrite Hchunk. unfold chunkItems.
      destruct (parsedItems Json JSON_parse asArray (done ++ String c ""));
        [reflexivity|now rewrite app_nil_r].
    + rewrite Hlen, (IH (done ++ String c "") (d - 1) pre post R trimmed Hnext Hc).
      rewrite Hdone. f_equal. rewrite length_append. simpl. lia.
  - rewrite Hlen.
    rewrite (IH (done ++ String c "") _ pre post R trimmed Hnext Hc).
    rewrite Hdone. f_equal. rewrite length_append. simpl. lia.
Qed.

(** Reading page after page. *)
Lemma scan_pages pages :
  forall pre post R trimmed,
    trimmed = pre ++ String.concat "" pages ++ post ->
    Forall (fun page => closesAtEnd 0 page = true) pages ->
    fold_left (step trimmed)
      (seq (String.length pre) (String.length (String.concat "" pages)))
      {| depth := 0; start := String.length pre; results := R |}
    = {| depth := 0;
         start := (String.length pre + String.length (String.concat "" pages))%nat;
         results := (R ++ flat_map items pages)%list |}.
Proof.
  induction pages as [|page pages IH]; intros pre post R trimmed Ht Hp.
  - simpl. now rewrite Nat.add_0_r, app_nil_r.
  - inversion Hp as [|? ? Hpage Hrest]; subst.
    assert (Hcat : String.concat "" (page :: pages) = page ++ String.concat "" pages).
    { destruct pages; simpl; [now rewrite append_nil_r|reflexivity]. }
    rewrite Hcat, length_append, seq_app, fold_left_app.
    pose proof (scan_page page "" 0 pre (String.concat "" pages ++ post) R
                  (pre ++ (page ++ String.concat "" pages) ++ post)) as H1.
    cbn [String.length append] in H1. rewrite Nat.add_0_r in H1.
    rewrite H1; [|now rewrite append_assoc|exact Hpage].
    replace (String.length pre + String.length page)%nat
      with (String.length (pre ++ page)) by apply length_append.
    rewrite (IH (pre ++ page) post); [|now rewrite !append_assoc|exact Hrest].
    cbn [flat_map]. rewrite app_assoc, length_append. f_equal. lia.
Qed.

(** Text without a closing bracket pushes nothing. *)
Lemma scan_tail tail :
  forall pre st trimmed,
    trimmed = pre ++ tail ->
    includes tail "]" = false ->
    results (fold_left (step trimmed)
               (seq (String.length pre) (String.length tail)) st)
    = results st.
Proof.
  induction tail as [|c rest IH]; intros pre st trimmed Ht Hno; [reflexivity|].
  cbn [String.length seq fold_left].
  cbn [includes startsWith] in Hno. apply orb_false_iff in Hno as [Hc Hrest].
  rewrite andb_true_r in Hc.
  assert (Hget : charAt_is trimmed (String.length pre) "]" = false).
  { unfold charAt_is. rewrite Ht.
    rewrite <- (Nat.add_0_r (String.length pre)), get_append_right. simpl.
    rewrite Ascii.eqb_sym. exact Hc. }
  assert (Hnext : trimmed = (pre ++ String c "") ++ rest)
    by (rewrite Ht, append_assoc; reflexivity).
  replace (S (String.length pre)) with (String.length (pre ++ String c ""))
    by (rewrite length_append; simpl; lia).
  rewrite (IH (pre ++ String c "") _ trimmed Hnext Hrest).
  unfold scanStep. now rewrite Hget.
Qed.

(** X13. [parseGhPaginatedJson]: when the trimmed output is one JSON
    document, the result is the array it denotes, or the value alone
    when it is not an array. When it is not one JSON document but a
    sequence of pages (each closing its brackets at its last character
    and not before), followed by text without a closing bracket, the
    result is the concatenation, in order, of the items of the pages
    that parse; a page that does not parse and the trailing text are
    skipped. *)
Theorem parseGhPaginatedJson_pages stdout :
  (forall parsed, JSON_parse (trim stdout) = Some parsed ->
     parseGhPaginatedJson Json JSON_parse asArray stdout
     = match asArray parsed with Some elements => elements | None => [ parsed ] end) /\
  (forall pages tail,
     trim stdout = String.concat "" pages ++ tail ->
     Forall (fun page => closesAtEnd 0 page = true) pages ->
     includes tail "]" = false ->
     JSON_parse (trim stdout) = None ->
     parseGhPaginatedJson Json JSON_parse asArray stdout = flat_map items pages).
Proof.
  split.
  - intros parsed Hp. unfold parseGhPaginatedJson, parsedItems. rewrite Hp.
    now destruct (asArray parsed).
  - intros pages tail Ht Hpages Htail Hp.
    unfold parseGhPaginatedJson, parsedItems. rewrite Hp.
    rewrite Ht at 2. rewrite length_append, seq_app, fold_left_app.
    pose proof (scan_pages pages "" tail [] (trim stdout)) as H1.
    cbn [String.length append Nat.add] in H1. rewrite (H1 Ht Hpages).
    pose proof (scan_tail tail (String.concat "" pages)) as H2.
    rewrite H2; [reflexivity|exact Ht|exact Htail].
Qed.
End PaginatedJsonFacts.

(* ------------------------------------------------------------------ *)
(** ** [gh.ts]: inline threads as the normalizer receives them *)

Section RawThreads.
Context {host : Host}.

Lemma toInlineMessage_author c :
  InlineMessage.author (toInlineMessage c) = "unknown" \/
  (RawMessage.author c = Some (InlineMessage.author (toInlineMessage c)) /\
   InlineMessage.author (toInlineMessage c) <> "").
Proof.
  unfold toInlineMessage, orString, truthy. simpl.
  destruct (RawMessage.author c) as [login|]; [|now left].
  destruct (String.eqb_spec login ""); simpl; [now left|right; now split].
Qed.

(** X14. A message whose author is missing (a deleted account) is not
    dropped by the inline path, unlike a verdict or a conversation
    comment without author: [getInlineComments] files it under the
    author "unknown", and when it is the last message of a thread that
    is neither resolved nor outdated and in which the PR author posted
    nothing, [normalizeInlineComments] returns it, authored "unknown". *)
Theorem missing_author_returned_as_unknown prAuthor thread earlier lastMessage :
  RawThread.isResolved thread = false ->
  RawThread.isOutdated thread = false ->
  RawThread.comments thread = Some (earlier ++ [ lastMessage ])%list ->
  RawMessage.author lastMessage = None ->
  (forall m, In m earlier -> RawMessage.author m <> Some prAuthor) ->
  prAuthor <> "unknown" ->
  isLikelyBot "unknown" = false ->
  normalizeInlineComments (toInlineComments (Some [ thread ])) prAuthor
  = [ inlineToNormalized (toInlineComment thread) (toInlineMessage lastMessage) ] /\
  NormalizedComment.author
    (inlineToNormalized (toInlineComment thread) (toInlineMessage lastMessage))
  = "unknown".
Proof.
  intros Hres Hout Hc Hlast Hother Hpr Hbot.
  assert (Hla : InlineMessage.author (toInlineMessage lastMessage) = "unknown")
    by (unfold toInlineMessage; simpl; now rewrite Hlast).
  split; [|exact Hla].
  unfold toInlineComments, normalizeInlineComments. cbn [map flat_map].
  rewrite app_nil_r.
  assert (Hcs : InlineComment.comments (toInlineComment thread)
                = (map toInlineMessage earlier ++ [ toInlineMessage lastMessage ])%list).
  { unfold toInlineComment. cbn [InlineComment.comments]. rewrite Hc, map_app.
    reflexivity. }
  rewrite emitThread_no_reply; [| exact Hres | exact Hout |].
  - rewrite Hcs, filter_app. cbn [filter].
    assert (Hr : isReviewerComment prAuthor (toInlineMessage lastMessage) = true).
    { apply isReviewerComment_true. rewrite Hla. split; [exact Hbot|congruence]. }
    rewrite Hr. now rewrite lastOf_snoc.
  - rewrite Hcs. destruct (existsb _ _) eqn:E; [|reflexivity].
    apply existsb_exists in E as (m' & Hin & Hm'). apply String.eqb_eq in Hm'.
    apply in_app_or in Hin as [Hin|[<-|[]]].
    + apply in_map_iff in Hin as (m & <- & Hm).
      destruct (toInlineMessage_author m) as [Hu|[Hs _]]; [congruence|].
      rewrite Hm' in Hs. now elim (Hother m Hm).
    + congruence.
Qed.
End RawThreads.

(* ------------------------------------------------------------------ *)
(** ** [render.ts]: nothing is lost between the list and the prompt *)

Lemma includes_self (s : string) : includes s s = true.
Proof.
  pose proof (includes_app "" s "") as H. cbn [append] in H.
  now rewrite append_nil_r in H.
Qed.

Lemma includes_append_left (a b p : string) :
  includes a p = true -> includes (a ++ b) p = true.
Proof.
  revert p. induction a as [|c a IH]; intros p.
  - cbn [includes]. rewrite orb_false_r. destruct p as [|x p]; [|discriminate].
    intros _. destruct b; reflexivity.
  - cbn [append includes]. intros H. apply orb_true_iff in H as [H|H].
    + assert (Hs : forall s t q, startsWith s q = true -> startsWith (s ++ t) q = true).
      { clear. intros s t q. revert s. induction q as [|x q IHq]; intros s H;
          [reflexivity|].
        destruct s as [|y s]; [discriminate|]. cbn [append startsWith] in *.
        apply andb_true_iff in H as [H1 H2]. rewrite H1. now apply IHq. }
      specialize (Hs (String c a) b p H). cbn [append] in Hs. now rewrite Hs.
    + rewrite (IH p H). apply orb_true_r.
Qed.

Lemma includes_append_right (a b p : string) :
  includes b p = true -> includes (a ++ b) p = true.
Proof.
  intros H. induction a as [|c a IH]; [exact H|].
  cbn [append includes]. rewrite IH. apply orb_true_r.
Qed.

(** A line of the list is a part of the joined text. *)
Lemma includes_concat (sep : string) (lines : list string) (x : string) :
  In x lines -> includes (String.concat sep lines) x = true.
Proof.
  induction lines as [|l ls IH]; intros H; [destruct H|].
  destruct ls as [|l' ls'].
  - destruct H as [<-|[]]. apply includes_self.
  - cbn [String.concat]. destruct H as [<-|H].
    + apply includes_append_left, includes_self.
    + apply includes_append_right, includes_append_right. now apply IH.
Qed.

Section RenderFacts.
Context {host : Host}.

Lemma renderComments_nth comments :
  forall i k c, nth_error comments k = Some c ->
    In (commentHeader (i + k + 1) c) (renderComments i comments) /\
    incl (commentBody c) (renderComments i comments).
Proof.
  induction comments as [|c0 rest IH]; intros i k c H; [now destruct k|].
  cbn [renderComments]. destruct k as [|k].
  - injection H as <-. rewrite Nat.add_0_r. split; [now left|].
    intros x Hx. right. apply in_or_app. left. apply in_or_app. now left.
  - cbn [nth_error] in H. destruct (IH (S i) k c H) as [Hh Hb].
    replace (i + S k + 1)%nat with (S i + k + 1)%nat by lia. split.
    + apply in_or_app. now right.
    + intros x Hx. apply in_or_app. right. now apply Hb.
Qed.

(** X15. [renderPrompt] neither drops nor renumbers: the prompt states
    the number of comments it was given, and for the comment at
    position [k] (from 0) it contains the header line numbered [k + 1]
    with the comment's author, state and location, and its body: quoted
    on one line when the body is shorter than 200 characters (UTF-16
    code units, as [c.body.length] counts them) and has no line break,
    trimmed otherwise. *)
Theorem renderPrompt_shows_every_comment prView comments k c :
  nth_error comments k = Some c ->
  let prompt := renderPrompt prView comments in
  includes prompt
    ("## Comments (" ++ Number_toString (Z.of_nat (List.length comments)) ++ ")")
    = true /\
  includes prompt (commentHeader (k + 1) c) = true /\
  includes prompt
    (if ((utf16Length (NormalizedComment.body c) <? 200)%nat
         && negb (includes (NormalizedComment.body c) newline))%bool
     then "> " ++ NormalizedComment.body c
     else trim (NormalizedComment.body c)) = true.
Proof.
  intros Hk prompt. unfold prompt, renderPrompt, renderLines.
  assert (Hlen : (List.length comments =? 0)%nat = false).
  { destruct comments; [now destruct k|reflexivity]. }
  rewrite Hlen. destruct (renderComments_nth comments 0 k c Hk) as [Hh Hb].
  cbn [Nat.add] in Hh.
  repeat split; apply includes_concat; apply in_or_app; right.
  - right. right. now left.
  - apply in_or_app. now right.
  - apply in_or_app. right. apply Hb. unfold commentBody.
    destruct ((utf16Length (NormalizedComment.body c) <? 200)%nat
              && negb (includes (NormalizedComment.body c) newline))%bool;
      [now left|right; right; now left].
Qed.
End RenderFacts.

(* ------------------------------------------------------------------ *)
(** ** [pr2cursor.ts]: the command line *)

Section ParseArgsFacts.
Variable parseInt : string -> option Z.

(** X16. [parseArgs] returns (rather than exits) only validated
    arguments: no help flag is present, the PR number is the positive
    integer read from the first argument, and the repository is the
    second argument when that one is non-empty, in which case it
    contains a slash. *)
Theorem parseArgs_returns_validated args prNumber repo :
  parseArgs parseInt args = Parsed prNumber repo ->
  ~ In "--help" args /\ ~ In "-h" args /\
  (exists first, nth_error args 0 = Some first /\ parseInt first = Some prNumber) /\
  0 < prNumber /\
  match repo with
  | Some r => nth_error args 1 = Some r /\ r <> "" /\ includes r "/" = true
  | None => nth_error args 1 = None \/ nth_error args 1 = Some ""
  end.
Proof.
  unfold parseArgs.
  destruct (List.length args =? 0)%nat; [discriminate|].
  destruct (existsb (String.eqb "--help") args) eqn:Eh; [discriminate|].
  destruct (existsb (String.eqb "-h") args) eqn:Es; [discriminate|].
  cbn [orb].
  assert (Hno : forall flag, existsb (String.eqb flag) args = false -> ~ In flag args).
  { intros flag E Hin.
    assert (H : existsb (String.eqb flag) args = true)
      by (apply existsb_exists; exists flag; split; [exact Hin|apply String.eqb_refl]).
    congruence. }
  destruct (nth_error args 0) as [first|]; [|discriminate].
  destruct (parseInt first) as [n|] eqn:Ep; [|discriminate].
  destruct (Z.leb_spec n 0); [discriminate|].
  destruct (nth_error args 1) as [r|].
  - unfold truthy. destruct (String.eqb_spec r "") as [->|Hne]; simpl.
    + intros [= <- <-]. repeat split; auto. now exists first.
    + destruct (includes r "/") eqn:Ei; simpl; [|discriminate].
      intros [= <- <-]. repeat split; auto. now exists first.
  - intros [= <- <-]. repeat split; auto. now exists first.
Qed.
End ParseArgsFacts.

(* ------------------------------------------------------------------ *)
(** ** The pipeline on the sample inputs *)

#[local] Existing Instance asciiHost.
Import Sample.

(** C1. The non-empty body invariant fails for inline comments: on an
    open thread whose only message has an empty body, [normalizeAll]
    returns one inline comment whose body is the empty string. *)
Theorem inline_empty_body_returned :
  let returned :=
    NormalizeResult.comments (normalizeAll (pr []) [] [ emptyBodyThread ]) in
  returned = [ inlineToNormalized emptyBodyThread (message "1" "dave" T1 "") ] /\
  map NormalizedComment.kind returned = [ inline_comment ] /\
  map NormalizedComment.body returned = [ "" ].
Proof. repeat split. Qed.


(** Out of chronological order the inline loop still takes the PR
    author's last listed message: in [shuffled] the PR author's latest
    message is at [T5], after the reviewer's at [T3], and the reviewer's
    message is pushed all the same. *)
Example shuffled_thread_uses_last_listed_reply :
  authorLatestTime "alice" shuffled 1704067205000 /\
  filter (postedAfter 1704067205000) (candidateSet "alice" shuffled) = [] /\
  emitThread "alice" shuffled
    = [ inlineToNormalized shuffled (message "22" "dave" T3 "still unclear") ].
Proof.
  split; [|split; reflexivity].
  split.
  - exists (message "20" "alice" T5 "see the doc"). repeat split. now left.
  - intros m t' [<-|[<-|[<-|[]]]] Ha Ht; vm_compute in Ht;
      try discriminate Ha; injection Ht as <-; lia.
Qed.

(** *** The scenarios of the specification *)

(** A review of "bob" at [T1], a reply of the PR author at [T2] and a
    conversation comment of "carol" at [T3]: only the last is returned. *)
Example scenario_review_then_reply :
  map (fun n => (NormalizedComment.kind n, NormalizedComment.author n,
                 NormalizedComment.body n))
      (NormalizeResult.comments
         (normalizeAll
            (pr [ verdict "bob" "CHANGES_REQUESTED" (Some T1)
                          (Some "fix the null check") ])
            [ reply; praise ] []))
  = [ (pr_comment, "carol", "looks good now") ].
Proof. reflexivity. Qed.

(** The thread [dave@T1, alice@T2, dave@T3]: one comment, dave's last. *)
Example scenario_thread_with_reply :
  map (fun n => (NormalizedComment.kind n, NormalizedComment.author n,
                 NormalizedComment.body n))
      (NormalizeResult.comments (normalizeAll (pr []) [] [ discussion ]))
  = [ (inline_comment, "dave", "but what about Y?") ].
Proof. reflexivity. Qed.

(** Empty input on all three sources: an empty sequence. *)
Example scenario_empty_input :
  normalizeAll (pr []) [] []
  = {| NormalizeResult.comments := [];
       NormalizeResult.authorLastActivity := None |}.
Proof. reflexivity. Qed.

(** *** Instances of the theorems *)


Lemma inline_thread_after_author_reply_witness :
  InlineComment.isResolved discussion = false /\
  InlineComment.isOutdated discussion = false /\
  chronological (InlineComment.comments discussion) /\
  authorLatestTime "alice" discussion 1704067202000 /\
  emitThread "alice" discussion = [ inlineToNormalized discussion butY ] /\
  normalizeInlineComments ([ settled ] ++ discussion :: []) "alice"
    = [ inlineToNormalized discussion butY ] /\
  In (inlineToNormalized discussion butY)
     (NormalizeResult.comments
        (normalizeAll (pr []) [] ([ settled ] ++ discussion :: []))).
Proof.
  assert (Hc : chronological (InlineComment.comments discussion)).
  { repeat constructor. }
  assert (Hl : authorLatestTime "alice" discussion 1704067202000).
  { split.
    - exists because. repeat split. right. now left.
    - intros m t' [<-|[<-|[<-|[]]]] Ha Ht; vm_compute in Ht;
        try discriminate Ha; injection Ht as <-; lia. }
  split; [reflexivity|]. split; [reflexivity|].
  split; [exact Hc|]. split; [exact Hl|].
  destruct (inline_thread_after_author_reply "alice" discussion
              1704067202000 eq_refl eq_refl Hc Hl) as (He & _ & _ & Hn & Hall).
  split; [exact He|]. split.
  - exact (Hn [ settled ] []).
  - exact (Hall (pr []) [] [ settled ] [] eq_refl).
Defined.

Lemma normalizeAll_sorted_stable_witness :
  let prView := pr [ late; early; verdict "frank" "CHANGES_REQUESTED" None None ] in
  let sorted := NormalizeResult.comments
                  (normalizeAll prView [ praise; ask ] [ discussion; settled ]) in
  Forall validTimestamp sorted /\
  map NormalizedComment.id sorted
    = [ "review-frank"; "review-bob"; "comment-103"; "inline-12" ] /\
  StronglySorted (fun a b => timeOrEpoch a <= timeOrEpoch b) sorted.
Proof.
  intros prView sorted.
  assert (Hv : Forall validTimestamp sorted).
  { repeat constructor; intros s E; vm_compute in E;
      try discriminate E; injection E as <-; vm_compute; discriminate. }
  split; [exact Hv|]. split; [reflexivity|].
  exact (proj1 (normalizeAll_sorted_stable prView [ praise; ask ]
                  [ discussion; settled ] Hv)).
Defined.

Lemma boundary_clearing_witness :
  findAuthorLastActivity "alice" [ ask; reply; praise ] [] = Some (Some 1704067202000) /\
  ~ In (issueToNormalized "bob" ask)
       (NormalizeResult.comments (normalizeAll (pr []) [ ask; reply; praise ] [])) /\
  In (issueToNormalized "carol" praise)
     (NormalizeResult.comments (normalizeAll (pr []) [ ask; reply; praise ] [])).
Proof.
  split; [reflexivity|].
  pose proof (proj2 (boundary_clearing (pr []) [ ask; reply; praise ] [])) as W.
  assert (Honly : forall c', In c' [ ask; reply; praise ] ->
                    IssueComment.user c' = Some "alice" -> c' = reply).
  { intros c' [<-|[<-|[<-|[]]]] E; try discriminate E; reflexivity. }
  assert (Hnone : forall (th : InlineComment.t) (m : InlineMessage.t),
                    In th [] -> In m (InlineComment.comments th) ->
                    InlineMessage.author m <> PRView.author (pr []))
    by (intros ? ? []).
  assert (Hreply : In reply [ ask; reply; praise ]) by (right; left; reflexivity).
  assert (Hask : In ask [ ask; reply; praise ]) by (left; reflexivity).
  assert (Hpraise : In praise [ ask; reply; praise ])
    by (right; right; left; reflexivity).
  assert (Hbob : "bob" <> PRView.author (pr [])) by discriminate.
  assert (Hcarol : "carol" <> PRView.author (pr [])) by discriminate.
  assert (Hbody : trim (issueBody praise) <> "") by discriminate.
  assert (Hlt1 : 1704067201000 < 1704067202000) by lia.
  assert (Hlt3 : 1704067202000 < 1704067203000) by lia.
  split.
  - exact (proj1 (W reply 1704067202000 ask "bob" 1704067201000
                    Hreply eq_refl eq_refl eq_refl Honly Hnone
                    Hask eq_refl eq_refl Hbob eq_refl eq_refl) Hlt1).
  - exact (proj2 (W reply 1704067202000 praise "carol" 1704067203000
                    Hreply eq_refl eq_refl eq_refl Honly Hnone
                    Hpraise eq_refl eq_refl Hcarol eq_refl eq_refl) Hlt3 Hbody).
Defined.

Lemma resolved_or_outdated_thread_suppressed_witness :
  (InlineComment.isResolved settled = true \/ InlineComment.isOutdated settled = true) /\
  emitThread "alice" settled = [] /\
  normalizeInlineComments ([ discussion ] ++ settled :: []) "alice"
    = normalizeInlineComments ([ discussion ] ++ []) "alice".
Proof.
  assert (H : InlineComment.isResolved settled = true
              \/ InlineComment.isOutdated settled = true) by (left; reflexivity).
  pose proof (resolved_or_outdated_thread_suppressed (pr []) [] [ discussion ]
                settled [] H) as W.
  split; [exact H|]. split; [exact (proj1 W)|exact (proj1 (proj2 W))].
Defined.

Lemma isLikelyBot_case_insensitive_patterns_witness :
  toLowerCase "Dependabot[BOT]" = toLowerCase "dependaBot[bot]" /\
  isLikelyBot "Dependabot[BOT]" = isLikelyBot "dependaBot[bot]" /\
  isLikelyBot "dave" = false.
Proof.
  split; [reflexivity|]. split; [|reflexivity].
  apply (proj1 isLikelyBot_case_insensitive_patterns asciiHost). reflexivity.
Defined.

(* ------------------------------------------------------------------ *)
(** ** More instances of the theorems *)

Import MoreSamples.

Lemma findAuthorLastActivity_latest_witness :
  authorStamps "alice" [ reply; praise; followUp ] [ discussion ] = [ T2; T5; T2 ] /\
  Date_parse T2 = Some 1704067202000 /\
  findAuthorLastActivity "alice" [ reply; praise; followUp ] [ discussion ]
    = Some (Some 1704067205000) /\
  exists t,
    findAuthorLastActivity "alice" [ reply; praise; followUp ] [ discussion ]
      = Some (Some t) /\
    (exists s, In s [ T2; T5; T2 ] /\ Date_parse s = Some t) /\
    (forall s t', In s [ T2; T5; T2 ] -> Date_parse s = Some t' -> t' <= t).
Proof.
  split; [reflexivity|]. split; [reflexivity|]. split; [reflexivity|].
  exact (findAuthorLastActivity_latest "alice" [ reply; praise; followUp ]
           [ discussion ] T2 [ T5; T2 ] 1704067202000 eq_refl eq_refl).
Defined.

Lemma invalid_first_stamp_disables_boundary_witness :
  authorStamps "alice" [ undatedReply; ask; reply ] [] = [ "yesterday"; T2 ] /\
  Date_parse "yesterday" = None /\
  findAuthorLastActivity "alice" [ undatedReply; ask; reply ] [] = Some None /\
  map NormalizedComment.id
      (NormalizeResult.comments (normalizeAll (pr []) [ undatedReply; ask; reply ] []))
  = [ "comment-101" ].
Proof.
  split; [reflexivity|]. split; [reflexivity|].
  pose proof (invalid_first_stamp_disables_boundary (pr [])
                [ undatedReply; ask; reply ] [] "yesterday" [ T2 ] eq_refl eq_refl)
    as [Hb Hc].
  split; [exact Hb|]. rewrite Hc. reflexivity.
Defined.

Lemma returned_after_boundary_witness :
  findAuthorLastActivity "alice" [ ask; reply; praise ] [] = Some (Some 1704067202000) /\
  Forall (fun n =>
            NormalizedComment.kind n <> inline_comment ->
            forall s t, timestampOf n = Some s -> Date_parse s = Some t ->
                        1704067202000 < t)
    (NormalizeResult.comments
       (normalizeAll (pr [ early; late ]) [ ask; reply; praise ] [])).
Proof.
  split; [reflexivity|].
  exact (returned_after_boundary (pr [ early; late ]) [ ask; reply; praise ] []
           1704067202000 eq_refl).
Defined.

Lemma normalizeReviews_content_witness :
  survivingVerdicts (pr [ verdict "frank" "CHANGES_REQUESTED" None None ]) None "frank"
    = [ verdict "frank" "CHANGES_REQUESTED" None None ] /\
  exists n,
    filter (fun n => (NormalizedComment.author n =? "frank")%string)
           (normalizeReviews (pr [ verdict "frank" "CHANGES_REQUESTED" None None ]) None)
      = [ n ] /\
    NormalizedComment.body n = "[CHANGES_REQUESTED]".
Proof.
  split; [reflexivity|].
  destruct (normalizeReviews_content
              (pr [ verdict "frank" "CHANGES_REQUESTED" None None ]) None)
    as (_ & Hsole & Hkept).
  destruct (proj1 (Hkept "frank" (verdict "frank" "CHANGES_REQUESTED" None None)
                     (Hsole "frank" _ eq_refl)) eq_refl)
    as (n & Hn & _ & _ & _ & Hp).
  exists n. split; [exact Hn|]. apply Hp. now left.
Defined.

Lemma undated_first_verdict_kept_witness :
  PRView.reviews (pr [ undated; dated ]) = ([] ++ undated :: [ dated ])%list /\
  verdictTime undated = None /\
  Map_get "bob" (latestByAuthor (pr [ undated; dated ])
                   (Some (Some 1704067205000))) = Some undated.
Proof.
  split; [reflexivity|]. split; [reflexivity|].
  assert (Hb : forall r : Review.t, In r [] -> Review.author r <> Some "bob")
    by (intros r []).
  assert (Hne : "bob" <> PRView.author (pr [ undated; dated ])) by discriminate.
  exact (proj1 (undated_first_verdict_kept (pr [ undated; dated ])
                  (Some (Some 1704067205000)) "bob" [] undated [ dated ]
                  eq_refl Hb eq_refl eq_refl Hne eq_refl)).
Defined.



Lemma normalizeAll_ids_distinct_witness :
  NoDup (map IssueComment.id [ ask; praise ]) /\
  NoDup (flat_map (fun t => map InlineMessage.id (InlineComment.comments t))
                  [ discussion; settled ]) /\
  NoDup (map NormalizedComment.id
             (NormalizeResult.comments
                (normalizeAll (pr [ late ]) [ ask; praise ] [ discussion; settled ]))).
Proof.
  assert (H1 : NoDup (map IssueComment.id [ ask; praise ])).
  { repeat constructor; simpl; intuition discriminate. }
  assert (H2 : NoDup (flat_map (fun t => map InlineMessage.id (InlineComment.comments t))
                               [ discussion; settled ])).
  { repeat constructor; simpl; intuition discriminate. }
  split; [exact H1|]. split; [exact H2|].
  exact (normalizeAll_ids_distinct (pr [ late ]) [ ask; praise ]
           [ discussion; settled ] H1 H2).
Defined.

Lemma normalizeAll_sort_again_witness :
  let returned :=
    NormalizeResult.comments
      (normalizeAll (pr [ late ]) [ praise; ask ] [ discussion ]) in
  Forall validTimestamp returned /\
  Array_sort byCreatedAt returned = returned.
Proof.
  intros returned.
  assert (Hv : Forall validTimestamp returned).
  { repeat constructor; intros s E; vm_compute in E;
      try discriminate E; injection E as <-; vm_compute; discriminate. }
  split; [exact Hv|].
  exact (normalizeAll_sort_again (pr [ late ]) [ praise; ask ] [ discussion ] Hv).
Defined.

Lemma parseGhPaginatedJson_pages_witness :
  trim "[1,2][3]" = String.concat "" [ "[1,2]"; "[3]" ] ++ "" /\
  Forall (fun page => closesAtEnd 0 page = true) [ "[1,2]"; "[3]" ] /\
  tiny_parse (trim "[1,2][3]") = None /\
  parseGhPaginatedJson TinyJson tiny_parse tiny_asArray "[1,2][3]"
  = flat_map (chunkItems TinyJson tiny_parse tiny_asArray) [ "[1,2]"; "[3]" ] /\
  parseGhPaginatedJson TinyJson tiny_parse tiny_asArray "[1,2][3]"
  = [ TinyNumber 1; TinyNumber 2; TinyNumber 3 ].
Proof.
  assert (Hp : Forall (fun page => closesAtEnd 0 page = true) [ "[1,2]"; "[3]" ])
    by (repeat constructor).
  split; [reflexivity|]. split; [exact Hp|]. split; [reflexivity|].
  split; [|reflexivity].
  exact (proj2 (parseGhPaginatedJson_pages TinyJson tiny_parse tiny_asArray "[1,2][3]")
           [ "[1,2]"; "[3]" ] "" eq_refl Hp eq_refl eq_refl).
Defined.

Lemma missing_author_returned_as_unknown_witness :
  RawThread.comments ghostThread = Some ([ asked ] ++ [ ghost ])%list /\
  RawMessage.author ghost = None /\
  isLikelyBot "unknown" = false /\
  map NormalizedComment.author
      (normalizeInlineComments (toInlineComments (Some [ ghostThread ])) "alice")
  = [ "unknown" ].
Proof.
  split; [reflexivity|]. split; [reflexivity|]. split; [reflexivity|].
  assert (Hother : forall m, In m [ asked ] -> RawMessage.author m <> Some "alice").
  { intros m [<-|[]]. discriminate. }
  assert (Hpr : "alice" <> "unknown") by discriminate.
  pose proof (missing_author_returned_as_unknown "alice" ghostThread [ asked ] ghost
                eq_refl eq_refl eq_refl eq_refl Hother Hpr eq_refl) as [Hn Ha].
  rewrite Hn. cbn [map]. now rewrite Ha.
Defined.

Lemma renderPrompt_shows_every_comment_witness :
  let comments :=
    NormalizeResult.comments (normalizeAll (pr [ late ]) [ praise ] [ discussion ]) in
  nth_error comments 2 = Some (inlineToNormalized discussion butY) /\
  includes (renderPrompt (pr [ late ]) comments) "## Comments (3)" = true /\
  includes (renderPrompt (pr [ late ]) comments) "### #3 @dave `src/app.ts:3`" = true /\
  includes (renderPrompt (pr [ late ]) comments) "> but what about Y?" = true.
Proof.
  intros comments.
  assert (Hk : nth_error comments 2 = Some (inlineToNormalized discussion butY))
    by reflexivity.
  split; [exact Hk|].
  exact (renderPrompt_shows_every_comment (pr [ late ]) comments 2
           (inlineToNormalized discussion butY) Hk).
Defined.

(** The length test of [renderPrompt] counts characters, not bytes: a
    body of a hundred accented letters is quoted on one line. *)
Example accented_body_is_quoted :
  String.length (NormalizedComment.body accented) = 200%nat /\
  utf16Length (NormalizedComment.body accented) = 100%nat /\
  commentBody accented = [ "> " ++ NormalizedComment.body accented ].
Proof. repeat split. Qed.

Lemma parseArgs_returns_validated_witness :
  parseArgs decimal_parseInt [ "7"; "o/r" ] = Parsed 7 (Some "o/r") /\
  parseArgs decimal_parseInt [ "7"; "--help" ] = ExitWith 0 /\
  parseArgs decimal_parseInt [ "0" ] = ExitWith 1 /\
  parseArgs decimal_parseInt [ "7"; "repo" ] = ExitWith 1 /\
  0 < 7.
Proof.
  repeat (split; [reflexivity|]).
  exact (proj1 (proj2 (proj2 (proj2
           (parseArgs_returns_validated decimal_parseInt [ "7"; "o/r" ] 7
              (Some "o/r") eq_refl))))).
Defined.
